(** * Extended public key export: path policy and request handler

    A shallow embedding of [src/handler/get_extended_pubkey.c]:

    - [Policy.is_path_safe_for_pubkey_export], the classification of a BIP-32
      derivation path as safe or unsafe for export without confirmation;
    - [Handler.handler_get_extended_pubkey], the request handler that decodes
      the request, consults the policy, derives the key, asks for confirmation
      and replies.

    Unsigned 32-bit values are integers of [Z]; array cells are read through a
    bounds-checked, logged accessor, so that every array access of the C code is
    visible in the model. *)

From Stdlib Require Import String ZArith List Bool Lia.
From Stdlib Require Strings.Byte.
Import ListNotations.

Local Open Scope Z_scope.

(** ** Logged, bounds-checked array reads *)

Module Mem.

(** One array access of the policy function: which array, which index. *)
Inductive access : Type :=
| RdPath (i : nat)
| RdCoin (i : nat).

(** A computation yields the accesses it performed, in order, and its value;
    [None] stands for a read outside the array (undefined behaviour in C). *)
Definition M (A : Type) : Type := (list access * option A)%type.

Definition ret {A} (a : A) : M A := ([], Some a).

Definition bind {A B} (m : M A) (f : A -> M B) : M B :=
  match m with
  | (l, None) => (l, None)
  | (l, Some a) => let (l', r) := f a in (l ++ l', r)
  end.

Definition reads {A} (m : M A) : list access := fst m.
Definition result {A} (m : M A) : option A := snd m.

(** [a[i]] for an array held as the list of its cells. *)
Definition read (tag : nat -> access) (a : list Z) (i : nat) : M Z :=
  ([tag i], nth_error a i).

(** C's short-circuit [&&]: the right operand runs only if the left is true. *)
Definition andM (a b : M bool) : M bool :=
  bind a (fun x => if x then b else ret false).

(** An access stays below the length the caller announced for its array. *)
Definition in_bounds (path_len coin_len : nat) (a : access) : Prop :=
  match a with
  | RdPath i => (i < path_len)%nat
  | RdCoin i => (i < coin_len)%nat
  end.

End Mem.

Notation "x <- m ;; k" := (Mem.bind m (fun x => k))
  (at level 61, m at next level, right associativity).
Notation "a <&&> b" := (Mem.andM a b) (at level 40, left associativity).

(** ** The path policy *)

Module Policy.
Import Mem.

(** [#define H 0x80000000ul] *)
Definition H : Z := 0x80000000.

Section WithConstants.

(** [MAX_BIP44_ACCOUNT_RECOMMENDED] comes from [constants.h]. *)
Variable MAX_BIP44_ACCOUNT_RECOMMENDED : Z.

Section Body.

(** The arrays are the lists of their cells; the lengths are passed apart,
    as in C. Lengths and loop counters are natural numbers: the handler
    passes a length that fits in a byte, so no counter wraps around. *)
Variable bip32_path : list Z.
Variable bip32_path_len : nat.
Variable coin_types : list Z.
Variable coin_types_length : nat.

Definition path_at (i : nat) : M Z := read RdPath bip32_path i.
Definition coin_at (i : nat) : M Z := read RdCoin coin_types i.

(** [bip32_path[i] == v] *)
Definition path_eq (i : nat) (v : Z) : M bool :=
  x <- path_at i ;; ret (x =? v).

(** The three conditions of the [if / else if / else if] at lines 38-48. *)
Definition exception_electrum : M bool :=
  ret (bip32_path_len =? 4)%nat <&&> path_eq 0 (Z.lxor 44 H) <&&>
  path_eq 1 (Z.lxor 88 H) <&&> path_eq 2 (Z.lxor 4541509 H) <&&>
  path_eq 3 (Z.lxor 1112098098 H).

Definition exception_0_45342 : M bool :=
  ret (bip32_path_len =? 2)%nat <&&> path_eq 0 (Z.lxor 0 H) <&&>
  path_eq 1 (Z.lxor 45342 H).

Definition exception_20698 : M bool :=
  ret (bip32_path_len =? 3)%nat <&&> path_eq 0 (Z.lxor 20698 H) <&&>
  path_eq 1 (Z.lxor 3053 H) <&&> path_eq 2 (Z.lxor 12648430 H).

(** The [switch (purpose)]: the hardened prefix length, or [None] for the
    [default: return false]. *)
Definition hardened_der_len (purpose : Z) : option nat :=
  if (purpose =? 44) || (purpose =? 49) || (purpose =? 84) || (purpose =? 86)
  then Some 3%nat
  else if purpose =? 45 then Some 3%nat
  else if purpose =? 48 then Some 4%nat
  else None.

(** [for (i = ...; ...; i++) if (bad(bip32_path[i])) return false;]
    run for [n] more iterations from index [i]; the value tells whether
    the loop ran to its end ([true]) or left the function ([false]). *)
Fixpoint scan_path (bad : Z -> bool) (i n : nat) : M bool :=
  match n with
  | O => ret true
  | S n' =>
      x <- path_at i ;;
      if bad x then ret false else scan_path bad (S i) n'
  end.

(** The loop at lines 96-100, [n] more iterations from index [i]; it has
    no early exit. *)
Fixpoint find_coin_type (coin_type : Z) (i n : nat) (coin_type_found : bool)
  : M bool :=
  match n with
  | O => ret coin_type_found
  | S n' =>
      c <- coin_at i ;;
      find_coin_type coin_type (S i) n'
        (if coin_type =? c then true else coin_type_found)
  end.

Definition is_path_safe_for_pubkey_export : M bool :=
  e1 <- exception_electrum ;;
  if e1 then ret true else
  e2 <- exception_0_45342 ;;
  if e2 then ret true else
  e3 <- exception_20698 ;;
  if e3 then ret true else
  if (bip32_path_len <? 3)%nat then ret false else
  p0 <- path_at 0 ;;
  let purpose := Z.land p0 0x7FFFFFFF in
  match hardened_der_len purpose with
  | None => ret false
  | Some hardened_der_len =>
      if (bip32_path_len <? hardened_der_len)%nat then ret false else
      prefix_ok <- scan_path (fun x => x <? 0x80000000) 0 hardened_der_len ;;
      if negb prefix_ok then ret false else
      suffix_ok <- scan_path (fun x => x >=? 0x80000000) hardened_der_len
                     (bip32_path_len - hardened_der_len) ;;
      if negb suffix_ok then ret false else
      p1 <- path_at 1 ;;
      let coin_type := Z.land p1 0x7FFFFFFF in
      coin_type_found <- find_coin_type coin_type 0 coin_types_length false ;;
      if negb coin_type_found then ret false else
      p2 <- path_at 2 ;;
      let account := Z.land p2 0x7FFFFFFF in
      if account >? MAX_BIP44_ACCOUNT_RECOMMENDED then ret false else
      if purpose =? 48 then
        p3 <- path_at 3 ;;
        let script_type := Z.land p3 0x7FFFFFFF in
        if negb (script_type =? 1) && negb (script_type =? 2)
        then ret false
        else ret true
      else ret true
  end.

End Body.

End WithConstants.

End Policy.

(** ** The request buffer *)

Module Buffer.

(** Modelled from the spec: [buffer_t] of [common/buffer.h], a byte array
    with a read offset; the request is the byte layout given for the wire
    request. The array's size is the length of [ptr]. *)
Record buffer_t : Type := { ptr : list Byte.byte; offset : nat }.

Definition u8 (b : Byte.byte) : Z := Z.of_N (Byte.to_N b).

(** The bytes not yet consumed. *)
Definition unread (b : buffer_t) : list Byte.byte := skipn (offset b) (ptr b).

Definition seek_cur (b : buffer_t) (n : nat) : buffer_t :=
  {| ptr := ptr b; offset := offset b + n |}.

(** Modelled from the spec: [buffer_read_u8] of [common/buffer.c], which
    reads one byte and advances, or fails and leaves the buffer as it is when
    no byte is left. *)
Definition buffer_read_u8 (b : buffer_t) : option (Z * buffer_t) :=
  match unread b with
  | x :: _ => Some (u8 x, seek_cur b 1)
  | [] => None
  end.

(** A big-endian unsigned 32-bit value. *)
Definition read_u32_be (b0 b1 b2 b3 : Byte.byte) : Z :=
  Z.lor (Z.shiftl (u8 b0) 24)
    (Z.lor (Z.shiftl (u8 b1) 16) (Z.lor (Z.shiftl (u8 b2) 8) (u8 b3))).

(** Modelled from the spec: [bip32_path_read] of [common/bip32.c], which
    reads [out_len] big-endian 32-bit components and fails on truncated
    input. *)
Fixpoint bip32_path_read (bytes : list Byte.byte) (out_len : nat) {struct out_len}
  : option (list Z) :=
  match out_len with
  | O => Some []
  | S n =>
      match bytes with
      | b0 :: b1 :: b2 :: b3 :: rest =>
          match bip32_path_read rest n with
          | Some out => Some (read_u32_be b0 b1 b2 b3 :: out)
          | None => None
          end
      | _ => None
      end
  end.

(** Modelled from the spec: [buffer_read_bip32_path] of [common/buffer.c],
    which reads exactly [out_len] components from the request body and
    advances past them, or fails on truncated input and leaves the buffer as
    it is. *)
Definition buffer_read_bip32_path (b : buffer_t) (out_len : nat)
  : option (list Z * buffer_t) :=
  match bip32_path_read (unread b) out_len with
  | Some out => Some (out, seek_cur b (4 * out_len))
  | None => None
  end.

End Buffer.

(** ** The handler *)

Module Handler.
Import Mem Policy Buffer.

(** The status words of [boilerplate/sw.h] that the handler sends. *)
Inductive status_word : Type :=
| SW_OK
| SW_DENY
| SW_INCORRECT_DATA
| SW_NOT_SUPPORTED
| SW_WRONG_DATA_LENGTH
| SW_SECURITY_STATUS_NOT_SATISFIED
| SW_BAD_STATE.

(** What the handler does to the outside, in order: calls of the derivation
    service, of the path formatter and of the confirmation screen (each with
    its arguments and, where it has one, its answer), and what it sends. *)
Inductive event : Type :=
| Derive (bip32_path : list Z) (serialized_pubkey : option string)
| Format (bip32_path : list Z)
| Display (path_str : string) (is_unsafe : bool) (serialized_pubkey : string)
    (approved : bool)
| SendSW (sw : status_word)
| SendResponse (data : string) (sw : status_word).

Record dispatcher_context_t : Type := { read_buffer : buffer_t }.

Section WithPlatform.

(** Constants of [constants.h] and of the build. *)
Variable MAX_BIP32_PATH_STEPS : Z.
Variable MAX_BIP44_ACCOUNT_RECOMMENDED : Z.
Variable BIP44_COIN_TYPE : Z.
Variable BIP44_COIN_TYPE_2 : Z.

(** [os_global_pin_is_validated() == BOLOS_UX_OK] *)
Variable pin_is_validated : bool.

(** [get_serialized_extended_pubkey_at_path]: the serialized key, or [None]
    for the return value -1. *)
Variable get_serialized_extended_pubkey_at_path : list Z -> option string.

(** [bip32_path_format]: the text written to [path_str]. *)
Variable bip32_path_format : list Z -> string.

(** [ui_display_pubkey]: the user's answer to the confirmation screen. *)
Variable ui_display_pubkey : string -> bool -> string -> bool.

(** [coin_types[2] = {BIP44_COIN_TYPE, BIP44_COIN_TYPE_2}] and the call at
    line 155. *)
Definition coin_types : list Z := [BIP44_COIN_TYPE; BIP44_COIN_TYPE_2].

Definition check_path (bip32_path : list Z) (bip32_path_len : nat) : M bool :=
  is_path_safe_for_pubkey_export MAX_BIP44_ACCOUNT_RECOMMENDED
    bip32_path bip32_path_len coin_types 2.

(** Lines 162-184, once the path is decoded and the gate is passed. *)
Definition derive_and_reply (display : Z) (bip32_path : list Z)
    (bip32_path_len : Z) (is_safe : bool) : list event :=
  match get_serialized_extended_pubkey_at_path bip32_path with
  | None => [Derive bip32_path None; SendSW SW_BAD_STATE]
  | Some serialized_pubkey_str =>
      let derived := [Derive bip32_path (Some serialized_pubkey_str)] in
      let formatted :=
        if bip32_path_len >? 0
        then (bip32_path_format bip32_path, [Format bip32_path])
        else ("(Master key)"%string, []) in
      let path_str := fst formatted in
      if negb (display =? 0) then
        let approved :=
          ui_display_pubkey path_str (negb is_safe) serialized_pubkey_str in
        let shown :=
          [Display path_str (negb is_safe) serialized_pubkey_str approved] in
        if negb approved
        then derived ++ snd formatted ++ shown ++ [SendSW SW_DENY]
        else derived ++ snd formatted ++ shown
             ++ [SendResponse serialized_pubkey_str SW_OK]
      else derived ++ snd formatted ++ [SendResponse serialized_pubkey_str SW_OK]
  end.

(** The handler: the context it leaves and the events it caused, or [None]
    if the policy function read outside an array. [bip32_path] holds the
    decoded components only: the further cells of the C array are not
    initialised. *)
Definition handler_get_extended_pubkey (dc : dispatcher_context_t)
  : option (dispatcher_context_t * list event) :=
  if negb pin_is_validated
  then Some (dc, [SendSW SW_SECURITY_STATUS_NOT_SATISFIED]) else
  match buffer_read_u8 (read_buffer dc) with
  | None => Some (dc, [SendSW SW_WRONG_DATA_LENGTH])
  | Some (display, buf1) =>
  match buffer_read_u8 buf1 with
  | None => Some ({| read_buffer := buf1 |}, [SendSW SW_WRONG_DATA_LENGTH])
  | Some (bip32_path_len, buf2) =>
  if (display >? 1) || (bip32_path_len >? MAX_BIP32_PATH_STEPS)
  then Some ({| read_buffer := buf2 |}, [SendSW SW_INCORRECT_DATA]) else
  match buffer_read_bip32_path buf2 (Z.to_nat bip32_path_len) with
  | None => Some ({| read_buffer := buf2 |}, [SendSW SW_WRONG_DATA_LENGTH])
  | Some (bip32_path, buf3) =>
  match result (check_path bip32_path (Z.to_nat bip32_path_len)) with
  | None => None
  | Some is_safe =>
  if negb is_safe && (display =? 0)
  then Some ({| read_buffer := buf3 |}, [SendSW SW_NOT_SUPPORTED])
  else Some ({| read_buffer := buf3 |},
             derive_and_reply display bip32_path bip32_path_len is_safe)
  end end end end.

End WithPlatform.

End Handler.

(** ** Vocabulary of the specification *)

Module Spec.
Import Mem Policy Buffer Handler.

(** [m] ends with value [v] and every access it made is below the announced
    lengths. *)
Definition runs {A} (path_len coin_len : nat) (m : M A) (v : A) : Prop :=
  result m = Some v /\ Forall (in_bounds path_len coin_len) (reads m).

(** The cell [a[i]], with a default that in-bounds reads never see. *)
Definition cell (a : list Z) (i : nat) : Z := nth i a 0.

(** A component is an unsigned 32-bit value; its top bit is the hardened flag
    and the low 31 bits are the index. *)
Definition u32 (x : Z) : Prop := 0 <= x < 2 ^ 32.
Definition is_hardened (x : Z) : Prop := Z.testbit x 31 = true.
Definition index_of (x : Z) : Z := Z.land x 0x7FFFFFFF.

(** The component written [n'] in path notation. *)
Definition hardened (n : Z) : Z := n + 2 ^ 31.

(** m/44'/88'/4541509'/1112098098', m/0'/45342' and m/20698'/3053'/12648430'. *)
Definition legacy_electrum : list Z :=
  [hardened 44; hardened 88; hardened 4541509; hardened 1112098098].
Definition legacy_0_45342 : list Z := [hardened 0; hardened 45342].
Definition legacy_20698 : list Z :=
  [hardened 20698; hardened 3053; hardened 12648430].
Definition legacy_exceptions : list (list Z) :=
  [legacy_electrum; legacy_0_45342; legacy_20698].

(** The first [h] components are hardened and no later one is. *)
Definition hardened_shape (h : nat) (path : list Z) : Prop :=
  (h <= length path)%nat /\
  Forall is_hardened (firstn h path) /\
  Forall (fun x => ~ is_hardened x) (skipn h path).

(** The verdict on a path given as the sequence of its components, with the
    accepted coin types given likewise. *)
Definition is_safe (max_account : Z) (path coins : list Z) : option bool :=
  result (is_path_safe_for_pubkey_export max_account
            path (length path) coins (length coins)).

(** The values of the three exception conditions. *)
Definition is_electrum (path : list Z) (len : nat) : bool :=
  (len =? 4)%nat && (cell path 0 =? Z.lxor 44 H) && (cell path 1 =? Z.lxor 88 H) &&
  (cell path 2 =? Z.lxor 4541509 H) && (cell path 3 =? Z.lxor 1112098098 H).

Definition is_0_45342 (path : list Z) (len : nat) : bool :=
  (len =? 2)%nat && (cell path 0 =? Z.lxor 0 H) && (cell path 1 =? Z.lxor 45342 H).

Definition is_20698 (path : list Z) (len : nat) : bool :=
  (len =? 3)%nat && (cell path 0 =? Z.lxor 20698 H) &&
  (cell path 1 =? Z.lxor 3053 H) && (cell path 2 =? Z.lxor 12648430 H).

(** The value of the whole policy function, cell by cell and loop by loop. *)
Definition verdict (max_account : Z) (path : list Z) (len : nat)
    (coins : list Z) (clen : nat) : bool :=
  let purpose := Z.land (cell path 0) 0x7FFFFFFF in
  let coin_type := Z.land (cell path 1) 0x7FFFFFFF in
  let account := Z.land (cell path 2) 0x7FFFFFFF in
  let script_type := Z.land (cell path 3) 0x7FFFFFFF in
  is_electrum path len || is_0_45342 path len || is_20698 path len ||
  negb (len <? 3)%nat &&
  match hardened_der_len purpose with
  | None => false
  | Some h =>
      negb (len <? h)%nat
      && forallb (fun x => negb (x <? 0x80000000)) (firstn h path)
      && forallb (fun x => negb (x >=? 0x80000000)) (firstn (len - h) (skipn h path))
      && existsb (Z.eqb coin_type) (firstn clen coins)
      && negb (account >? max_account)
      && (negb (purpose =? 48) || (script_type =? 1) || (script_type =? 2))
  end.




(** A request whose bytes are all still to be read. *)
Definition request (bytes : list Byte.byte) : dispatcher_context_t :=
  {| read_buffer := {| ptr := bytes; offset := 0 |} |}.

(** The request in [dc] is well formed: it decodes to the display flag
    [display] (0 or 1) and to the path [path] of at most [max_steps]
    components, leaving the context [dc']. *)
Definition decodes (max_steps : Z) (dc : dispatcher_context_t) (display : Z)
    (path : list Z) (dc' : dispatcher_context_t) : Prop :=
  exists (n : Z) (b1 b2 b3 : buffer_t),
    buffer_read_u8 (read_buffer dc) = Some (display, b1) /\
    buffer_read_u8 b1 = Some (n, b2) /\
    display <= 1 /\ n <= max_steps /\
    buffer_read_bip32_path b2 (Z.to_nat n) = Some (path, b3) /\
    dc' = {| read_buffer := b3 |}.

(** The call of the path formatter, made for a path that is not empty. *)
Definition formatting (path : list Z) : list event :=
  match path with
  | [] => []
  | _ :: _ => [Format path]
  end.

(** The text shown for a path on the confirmation screen. *)
Definition path_text (format : list Z -> string) (path : list Z) : string :=
  match path with
  | [] => "(Master key)"%string
  | _ :: _ => format path
  end.

End Spec.

(** ** A sample device *)

Module Sample.
Import Buffer Handler Spec.

(** Values for the constants, and stand-ins for the collaborators: the
    derivation service yields [xpub], the formatter yields [path_str], and the
    user gives the same answer to every confirmation screen. *)
Definition max_steps : Z := 10.
Definition max_account : Z := 100.
Definition coin : Z := 88.
Definition coin_2 : Z := 2301.
Definition xpub : string := "xpub6D4BDPcP2GT577Vvch3R8wDkScZWzQzMMUm3PWbmWvVJrZwQY4"%string.
Definition path_str : string := "m/44'/88'/50000000'"%string.

Definition device (unlocked approves : bool) (dc : dispatcher_context_t)
  : option (dispatcher_context_t * list event) :=
  handler_get_extended_pubkey max_steps max_account coin coin_2 unlocked
    (fun _ => Some xpub) (fun _ => path_str) (fun _ _ _ => approves) dc.

(** m/44'/88'/0', m/44'/88'/50000000' (account above the maximum),
    m/44'/88'/0 (account not hardened), m/44'/1'/0' (coin type not accepted),
    m/48'/88'/0' and m/48'/88'/0'/3' (script type not standard). *)
Definition standard_path : list Z := [0x8000002C; 0x80000058; 0x80000000].
Definition big_account_path : list Z := [0x8000002C; 0x80000058; 0x82FAF080].
Definition soft_account_path : list Z := [0x8000002C; 0x80000058; 0].
Definition other_coin_path : list Z := [0x8000002C; 0x80000001; 0x80000000].
Definition short_bip48_path : list Z := [0x80000030; 0x80000058; 0x80000000].
Definition bad_script_path : list Z :=
  [0x80000030; 0x80000058; 0x80000000; 0x80000003].

(** Requests: display 0 for m/44'/88'/50000000'; display 1 for the empty
    path; a lone display byte; a path length of 11; one component announced
    and one byte sent. *)
Definition silent_big_account : list Byte.byte :=
  [Byte.x00; Byte.x03;
   Byte.x80; Byte.x00; Byte.x00; Byte.x2c;
   Byte.x80; Byte.x00; Byte.x00; Byte.x58;
   Byte.x82; Byte.xfa; Byte.xf0; Byte.x80].
Definition shown_master_key : list Byte.byte := [Byte.x01; Byte.x00].
Definition lone_byte : list Byte.byte := [Byte.x01].
Definition eleven_steps : list Byte.byte := [Byte.x01; Byte.x0b].
Definition truncated_body : list Byte.byte := [Byte.x01; Byte.x01; Byte.x00].

End Sample.

(** ** The general rules of the policy, and more samples *)

Module Rules.
Import Buffer Handler Spec Sample.

(** The purposes with three hardened steps, and the hardened prefix length
    that goes with a purpose. *)
Definition standard_purposes : list Z := [44; 49; 84; 86; 45].

Definition prefix_for (purpose : Z) (h : nat) : Prop :=
  (In purpose standard_purposes /\ h = 3%nat) \/ (purpose = 48 /\ h = 4%nat).

(** A path passes every general rule: purpose, hardening shape, coin type,
    account bound and, for purpose 48, script type. *)
Definition passes_rules (max_account : Z) (path coins : list Z) : Prop :=
  exists h : nat,
    prefix_for (index_of (cell path 0)) h /\
    hardened_shape h path /\
    In (index_of (cell path 1)) coins /\
    index_of (cell path 2) <= max_account /\
    (index_of (cell path 0) = 48 ->
     index_of (cell path 3) = 1 \/ index_of (cell path 3) = 2).

(** The calls of the derivation service in a trace. *)
Definition is_derive (e : event) : bool :=
  match e with
  | Derive _ _ => true
  | _ => false
  end.

(** The five ways a well-formed request can end, given the derivation
    service, the formatter and the user's answers. *)
Definition ends_as (derive : list Z -> option string)
    (format : list Z -> string) (ui : string -> bool -> string -> bool)
    (display : Z) (path : list Z) (is_safe : bool) (tr : list event) : Prop :=
  (is_safe = false /\ display = 0 /\ tr = [SendSW SW_NOT_SUPPORTED]) \/
  ((is_safe = true \/ display = 1) /\
   derive path = None /\
   tr = [Derive path None; SendSW SW_BAD_STATE]) \/
  (exists key,
     derive path = Some key /\
     ((is_safe = true /\ display = 0 /\
       tr = Derive path (Some key) :: formatting path
            ++ [SendResponse key SW_OK]) \/
      (display = 1 /\
       ui (path_text format path) (negb is_safe) key = false /\
       tr = Derive path (Some key) :: formatting path
            ++ [Display (path_text format path) (negb is_safe) key false;
                SendSW SW_DENY]) \/
      (display = 1 /\
       ui (path_text format path) (negb is_safe) key = true /\
       tr = Derive path (Some key) :: formatting path
            ++ [Display (path_text format path) (negb is_safe) key true;
                SendResponse key SW_OK]))).

(** m/48'/88'/0'/2' and m/48'/88'/0'/2'/0/5. *)
Definition bip48_path : list Z :=
  [0x80000030; 0x80000058; 0x80000000; 0x80000002].
Definition bip48_address_path : list Z :=
  [0x80000030; 0x80000058; 0x80000000; 0x80000002; 0; 5].

(** Requests for m/44'/88'/0' without and with display, and with display
    for m/44'/88'/50000000'. *)
Definition standard_bytes : list Byte.byte :=
  [Byte.x80; Byte.x00; Byte.x00; Byte.x2c;
   Byte.x80; Byte.x00; Byte.x00; Byte.x58;
   Byte.x80; Byte.x00; Byte.x00; Byte.x00].
Definition silent_standard : list Byte.byte :=
  Byte.x00 :: Byte.x03 :: standard_bytes.
Definition shown_standard : list Byte.byte :=
  Byte.x01 :: Byte.x03 :: standard_bytes.
Definition shown_big_account : list Byte.byte :=
  [Byte.x01; Byte.x03;
   Byte.x80; Byte.x00; Byte.x00; Byte.x2c;
   Byte.x80; Byte.x00; Byte.x00; Byte.x58;
   Byte.x82; Byte.xfa; Byte.xf0; Byte.x80].

(** The sample device with a derivation service that fails. *)
Definition broken_device (dc : dispatcher_context_t)
  : option (dispatcher_context_t * list event) :=
  handler_get_extended_pubkey max_steps max_account coin coin_2 true
    (fun _ => None) (fun _ => path_str) (fun _ _ _ => true) dc.

End Rules.

(** ** Reasoning about logged runs *)

Module MemFacts.
Import Mem Spec.

Section Runs.

Variables path_len coin_len : nat.

Lemma runs_ret {A} (v : A) : runs path_len coin_len (ret v) v.
Proof. split; [reflexivity | constructor]. Qed.

Lemma runs_bind {A B} (m : M A) (f : A -> M B) (a : A) (b : B) :
  runs path_len coin_len m a -> runs path_len coin_len (f a) b ->
  runs path_len coin_len (bind m f) b.
Proof.
  destruct m as [l [x|]]; intros [Hr Hl]; simpl in Hr; inversion Hr; subst x.
  unfold runs, bind, result, reads. destruct (f a) as [l' r].
  intros [Hr' Hl']. simpl in *. split; [assumption|].
  apply Forall_app. split; assumption.
Qed.

Lemma runs_and_true (a b : M bool) (y : bool) :
  runs path_len coin_len a true -> runs path_len coin_len b y ->
  runs path_len coin_len (a <&&> b) y.
Proof. intros Ha Hb. eapply runs_bind; [exact Ha | exact Hb]. Qed.

Lemma runs_and_false (a b : M bool) :
  runs path_len coin_len a false -> runs path_len coin_len (a <&&> b) false.
Proof. intros Ha. eapply runs_bind; [exact Ha | apply runs_ret]. Qed.

Lemma runs_and (a b : M bool) (x y : bool) :
  runs path_len coin_len a x -> runs path_len coin_len b y ->
  runs path_len coin_len (a <&&> b) (x && y).
Proof.
  intros Ha Hb. destruct x; simpl.
  - now apply runs_and_true.
  - now apply runs_and_false.
Qed.

End Runs.

Lemma nth_error_cell (a : list Z) (i : nat) :
  (i < length a)%nat -> nth_error a i = Some (cell a i).
Proof. intros Hi. unfold cell. now apply nth_error_nth'. Qed.

Lemma skipn_cell (a : list Z) (i : nat) :
  (i < length a)%nat -> skipn i a = cell a i :: skipn (S i) a.
Proof.
  revert i. induction a as [|x a IH]; intros [|i] Hi; simpl in *; try lia.
  - reflexivity.
  - rewrite IH by lia. reflexivity.
Qed.

End MemFacts.

(** ** What the policy computes *)

Module PolicyFacts.
Import Mem Spec MemFacts Policy.

Lemma hardened_der_len_cases (purpose : Z) (h : nat) :
  hardened_der_len purpose = Some h ->
  (h = 3%nat /\ purpose <> 48) \/ (h = 4%nat /\ purpose = 48).
Proof.
  unfold hardened_der_len.
  destruct (Z.eqb_spec purpose 44), (Z.eqb_spec purpose 49),
    (Z.eqb_spec purpose 84), (Z.eqb_spec purpose 86),
    (Z.eqb_spec purpose 45), (Z.eqb_spec purpose 48); simpl;
    intros E; inversion E; subst; try (left; split; [reflexivity | lia]).
  right. split; reflexivity.
Qed.

Section Run.

Variable MAX_BIP44_ACCOUNT_RECOMMENDED : Z.
Variable path : list Z.
Variable len : nat.
Variable coins : list Z.
Variable clen : nat.

(** The arrays hold at least as many cells as their announced lengths. *)
Hypothesis Hlen : (len <= length path)%nat.
Hypothesis Hclen : (clen <= length coins)%nat.

Lemma runs_path_at (i : nat) :
  (i < len)%nat -> runs len clen (path_at path i) (cell path i).
Proof.
  intros Hi. split; simpl.
  - apply nth_error_cell. lia.
  - repeat constructor. exact Hi.
Qed.

Lemma runs_coin_at (i : nat) :
  (i < clen)%nat -> runs len clen (coin_at coins i) (cell coins i).
Proof.
  intros Hi. split; simpl.
  - apply nth_error_cell. lia.
  - repeat constructor. exact Hi.
Qed.

Lemma runs_path_eq (i : nat) (v : Z) :
  (i < len)%nat -> runs len clen (path_eq path i v) (cell path i =? v).
Proof.
  intros Hi. eapply runs_bind; [now apply runs_path_at | apply runs_ret].
Qed.

(** An exception condition: the length test guards every read after it. *)
Ltac guard_holds :=
  repeat (apply runs_and; [| apply runs_path_eq; lia]);
  apply (runs_and_true _ _ (ret true)); [apply runs_ret | apply runs_path_eq; lia].

Ltac guard_fails := repeat apply runs_and_false; apply runs_ret.

Lemma runs_exception_electrum :
  runs len clen (exception_electrum path len) (is_electrum path len).
Proof.
  unfold exception_electrum, is_electrum.
  destruct (Nat.eqb_spec len 4) as [E|E]; simpl; [guard_holds | guard_fails].
Qed.

Lemma runs_exception_0_45342 :
  runs len clen (exception_0_45342 path len) (is_0_45342 path len).
Proof.
  unfold exception_0_45342, is_0_45342.
  destruct (Nat.eqb_spec len 2) as [E|E]; simpl; [guard_holds | guard_fails].
Qed.

Lemma runs_exception_20698 :
  runs len clen (exception_20698 path len) (is_20698 path len).
Proof.
  unfold exception_20698, is_20698.
  destruct (Nat.eqb_spec len 3) as [E|E]; simpl; [guard_holds | guard_fails].
Qed.

(** A scanning loop over [n] cells from index [i] runs to its end exactly when
    none of these cells is bad. *)
Lemma runs_scan_path (bad : Z -> bool) (n : nat) :
  forall i : nat, (i + n <= len)%nat ->
  runs len clen (scan_path path bad i n)
       (forallb (fun x => negb (bad x)) (firstn n (skipn i path))).
Proof.
  induction n as [|n IH]; intros i Hi.
  - apply runs_ret.
  - rewrite (skipn_cell path i) by lia. cbn [scan_path firstn forallb].
    eapply runs_bind; [apply runs_path_at; lia|].
    destruct (bad (cell path i)); cbn [negb andb].
    + apply runs_ret.
    + apply IH. lia.
Qed.

(** The coin-type loop ends with the flag set exactly when it was set before or
    one of the [n] cells from index [i] equals the coin type. *)
Lemma runs_find_coin_type (coin_type : Z) (n : nat) :
  forall (i : nat) (found : bool), (i + n <= clen)%nat ->
  runs len clen (find_coin_type coins coin_type i n found)
       (found || existsb (Z.eqb coin_type) (firstn n (skipn i coins))).
Proof.
  induction n as [|n IH]; intros i found Hi.
  - cbn [firstn existsb find_coin_type]. rewrite orb_false_r. apply runs_ret.
  - rewrite (skipn_cell coins i) by lia. cbn [find_coin_type firstn existsb].
    eapply runs_bind; [apply runs_coin_at; lia|].
    replace (found || ((coin_type =? cell coins i)
                       || existsb (Z.eqb coin_type) (firstn n (skipn (S i) coins))))%bool
      with ((if coin_type =? cell coins i then true else found)
            || existsb (Z.eqb coin_type) (firstn n (skipn (S i) coins)))%bool.
    + apply IH. lia.
    + destruct (coin_type =? cell coins i), found; reflexivity.
Qed.

(** The function ends, reads in bounds only, and returns [verdict]. *)
Lemma policy_runs :
  runs len clen
    (is_path_safe_for_pubkey_export MAX_BIP44_ACCOUNT_RECOMMENDED path len coins clen)
    (verdict MAX_BIP44_ACCOUNT_RECOMMENDED path len coins clen).
Proof.
  unfold is_path_safe_for_pubkey_export, verdict.
  eapply runs_bind; [apply runs_exception_electrum|].
  destruct (is_electrum path len); [apply runs_ret|].
  eapply runs_bind; [apply runs_exception_0_45342|].
  destruct (is_0_45342 path len); [apply runs_ret|].
  eapply runs_bind; [apply runs_exception_20698|].
  destruct (is_20698 path len); [apply runs_ret|].
  cbn [orb].
  destruct (Nat.ltb_spec len 3) as [L3|L3]; [apply runs_ret|].
  eapply runs_bind; [apply runs_path_at; lia|].
  cbn [negb andb].
  destruct (hardened_der_len (Z.land (cell path 0) 0x7FFFFFFF)) as [h|] eqn:Eh;
    [|apply runs_ret].
  destruct (Nat.ltb_spec len h) as [Lh|Lh]; [apply runs_ret|].
  cbn [negb andb].
  eapply runs_bind; [apply (runs_scan_path _ h 0%nat); lia|].
  cbn [skipn].
  destruct (forallb _ (firstn h path)); [|apply runs_ret].
  cbn [negb andb].
  eapply runs_bind; [apply runs_scan_path; lia|].
  destruct (forallb _ (firstn (len - h) (skipn h path))); [|apply runs_ret].
  cbn [negb andb].
  eapply runs_bind; [apply runs_path_at; lia|].
  eapply runs_bind; [apply (runs_find_coin_type _ clen 0%nat false); lia|].
  cbn [skipn orb].
  destruct (existsb _ (firstn clen coins)); [|apply runs_ret].
  cbn [negb andb].
  eapply runs_bind; [apply runs_path_at; lia|].
  destruct (Z.land (cell path 2) 0x7FFFFFFF >? MAX_BIP44_ACCOUNT_RECOMMENDED);
    [apply runs_ret|].
  cbn [negb andb].
  destruct (hardened_der_len_cases _ _ Eh) as [[-> Hp]|[-> Hp]].
  - apply Z.eqb_neq in Hp. rewrite Hp. apply runs_ret.
  - rewrite Hp. cbn [Z.eqb Pos.eqb negb orb].
    eapply runs_bind; [apply runs_path_at; lia|].
    destruct (Z.land (cell path 3) 0x7FFFFFFF =? 1),
      (Z.land (cell path 3) 0x7FFFFFFF =? 2); apply runs_ret.
Qed.

End Run.

Lemma is_safe_verdict (max_account : Z) (path coins : list Z) :
  is_safe max_account path coins
  = Some (verdict max_account path (length path) coins (length coins)).
Proof.
  unfold is_safe.
  destruct (policy_runs max_account path (length path) coins (length coins))
    as [Hr _]; auto.
Qed.

Lemma testbit_31 (x : Z) :
  u32 x -> Z.testbit x 31 = negb (x <? 0x80000000).
Proof.
  intros [Hlo Hhi].
  rewrite Z.testbit_odd, Z.shiftr_div_pow2 by lia.
  destruct (Z.ltb_spec x 0x80000000) as [L|L]; simpl.
  - rewrite Z.div_small by (change (2 ^ 31) with 0x80000000; lia). reflexivity.
  - replace x with (1 * 2 ^ 31 + (x - 2 ^ 31)) by lia.
    rewrite Z.div_add_l by lia.
    rewrite Z.div_small; [reflexivity|].
    change (2 ^ 31) with 0x80000000. change (2 ^ 32) with 0x100000000 in Hhi. lia.
Qed.

Lemma prefix_scan_spec (l : list Z) :
  Forall u32 l ->
  forallb (fun x => negb (x <? 0x80000000)) l = true <-> Forall is_hardened l.
Proof.
  intros Hu. rewrite forallb_forall, Forall_forall. rewrite Forall_forall in Hu.
  split; intros HH x Hx; specialize (HH x Hx); specialize (Hu x Hx);
    unfold is_hardened in *; rewrite testbit_31 in * by assumption; assumption.
Qed.

Lemma suffix_scan_spec (l : list Z) :
  Forall u32 l ->
  forallb (fun x => negb (x >=? 0x80000000)) l = true
  <-> Forall (fun x => ~ is_hardened x) l.
Proof.
  intros Hu. rewrite forallb_forall, Forall_forall. rewrite Forall_forall in Hu.
  split; intros HH x Hx; specialize (HH x Hx); specialize (Hu x Hx);
    unfold is_hardened in *; rewrite testbit_31 in * by assumption;
    rewrite Z.geb_leb in *;
    destruct (Z.ltb_spec x 0x80000000), (Z.leb_spec 0x80000000 x);
    simpl in *; try lia; congruence.
Qed.

Lemma Forall_u32_firstn (n : nat) (l : list Z) : Forall u32 l -> Forall u32 (firstn n l).
Proof.
  rewrite !Forall_forall. intros Hl x Hx.
  apply Hl. rewrite <- (firstn_skipn n l). apply in_or_app. now left.
Qed.

Lemma Forall_u32_skipn (n : nat) (l : list Z) : Forall u32 l -> Forall u32 (skipn n l).
Proof.
  rewrite !Forall_forall. intros Hl x Hx.
  apply Hl. rewrite <- (firstn_skipn n l). apply in_or_app. now right.
Qed.

(** The exception conditions hold of the literal paths and of nothing else. *)
Lemma is_electrum_spec (path : list Z) :
  is_electrum path (length path) = true <-> path = legacy_electrum.
Proof.
  unfold is_electrum, legacy_electrum. split.
  - intros E. rewrite !andb_true_iff, Nat.eqb_eq, !Z.eqb_eq in E.
    destruct E as [[[[L E0] E1] E2] E3].
    destruct path as [|a [|b [|c [|d [|? ?]]]]]; try discriminate.
    unfold cell in *. simpl in *. subst. reflexivity.
  - intros ->. reflexivity.
Qed.

Lemma is_0_45342_spec (path : list Z) :
  is_0_45342 path (length path) = true <-> path = legacy_0_45342.
Proof.
  unfold is_0_45342, legacy_0_45342. split.
  - intros E. rewrite !andb_true_iff, Nat.eqb_eq, !Z.eqb_eq in E.
    destruct E as [[L E0] E1].
    destruct path as [|a [|b [|? ?]]]; try discriminate.
    unfold cell in *. simpl in *. subst. reflexivity.
  - intros ->. reflexivity.
Qed.

Lemma is_20698_spec (path : list Z) :
  is_20698 path (length path) = true <-> path = legacy_20698.
Proof.
  unfold is_20698, legacy_20698. split.
  - intros E. rewrite !andb_true_iff, Nat.eqb_eq, !Z.eqb_eq in E.
    destruct E as [[[L E0] E1] E2].
    destruct path as [|a [|b [|c [|? ?]]]]; try discriminate.
    unfold cell in *. simpl in *. subst. reflexivity.
  - intros ->. reflexivity.
Qed.

End PolicyFacts.

(** ** Properties of the policy *)

Module PolicyProps.
Import Mem Spec MemFacts Policy PolicyFacts.

(** A safe verdict on a whole path comes from a legacy exception or from
    passing every general rule. *)
Lemma verdict_true_inv (max_account : Z) (path coins : list Z) :
  verdict max_account path (length path) coins (length coins) = true ->
  In path legacy_exceptions \/
  ((3 <= length path)%nat /\
   exists h : nat,
     hardened_der_len (index_of (cell path 0)) = Some h /\
     (h <= length path)%nat /\
     forallb (fun x => negb (x <? 0x80000000)) (firstn h path) = true /\
     forallb (fun x => negb (x >=? 0x80000000)) (skipn h path) = true /\
     In (index_of (cell path 1)) coins /\
     index_of (cell path 2) <= max_account /\
     (index_of (cell path 0) = 48 ->
      index_of (cell path 3) = 1 \/ index_of (cell path 3) = 2)).
Proof.
  unfold verdict, index_of. intros V.
  apply orb_true_iff in V. destruct V as [V|V].
  - left. rewrite !orb_true_iff in V. destruct V as [[V|V]|V].
    + apply is_electrum_spec in V. subst. simpl. auto.
    + apply is_0_45342_spec in V. subst. simpl. auto.
    + apply is_20698_spec in V. subst. simpl. auto 6.
  - right. apply andb_true_iff in V. destruct V as [L3 V].
    destruct (Nat.ltb_spec (length path) 3) as [|L3']; [discriminate|].
    split; [exact L3'|].
    destruct (hardened_der_len (Z.land (cell path 0) 0x7FFFFFFF)) as [h|];
      [|discriminate].
    exists h. rewrite !andb_true_iff in V.
    destruct V as [[[[[Lh P] S] C] A] T].
    destruct (Nat.ltb_spec (length path) h) as [|Lh']; [discriminate|].
    rewrite firstn_all2 in S by (rewrite length_skipn; lia).
    rewrite firstn_all in C.
    repeat split; try assumption.
    + apply existsb_exists in C. destruct C as [c [Hc E]].
      apply Z.eqb_eq in E. now subst c.
    + apply negb_true_iff in A. rewrite Z.gtb_ltb in A.
      apply Z.ltb_ge in A. exact A.
    + intros P48. rewrite P48 in T. simpl in T.
      apply orb_true_iff in T. destruct T as [T|T]; apply Z.eqb_eq in T; auto.
Qed.

(** C3: a path equal, component for component, to one of the three literal
    legacy exception paths is classified safe, whatever the accepted coin types
    and the account bound are. *)
Theorem legacy_exceptions_safe (max_account : Z) (path coins : list Z) :
  In path legacy_exceptions -> is_safe max_account path coins = Some true.
Proof.
  intros [<-|[<-|[<-|[]]]]; reflexivity.
Qed.

(** C4, amended: a path of fewer than three components other than the legacy
    exception m/0'/45342' is classified unsafe. *)
Theorem short_paths_unsafe_except_legacy (max_account : Z) (path coins : list Z) :
  (length path < 3)%nat -> path <> legacy_0_45342 ->
  is_safe max_account path coins = Some false.
Proof.
  intros Hl Hn. rewrite is_safe_verdict.
  destruct (verdict _ _ _ _ _) eqn:V; [exfalso | reflexivity].
  apply verdict_true_inv in V. destruct V as [[<-|[<-|[<-|[]]]]|[L3 _]].
  - simpl in Hl. lia.
  - now apply Hn.
  - simpl in Hl. lia.
  - lia.
Qed.

(** C5: on a path of at least three 32-bit components that is not a legacy
    exception, a purpose of 44, 49, 84, 86 or 45 requires that exactly the first
    three components are hardened, a purpose of 48 that exactly the first four
    are, and a path that breaks the rule for its purpose, or has any other
    purpose, is classified unsafe. *)
Theorem hardening_shape_required (max_account : Z) (path coins : list Z) :
  Forall u32 path -> (3 <= length path)%nat -> ~ In path legacy_exceptions ->
  (In (index_of (cell path 0)) [44; 49; 84; 86; 45] ->
   ~ hardened_shape 3 path -> is_safe max_account path coins = Some false) /\
  (index_of (cell path 0) = 48 ->
   ~ hardened_shape 4 path -> is_safe max_account path coins = Some false) /\
  (~ In (index_of (cell path 0)) [44; 49; 84; 86; 45; 48] ->
   is_safe max_account path coins = Some false).
Proof.
  intros Hu Hl Hn.
  assert (Inv : is_safe max_account path coins = Some false \/
                exists h, hardened_der_len (index_of (cell path 0)) = Some h /\
                          hardened_shape h path).
  { rewrite is_safe_verdict.
    destruct (verdict _ _ _ _ _) eqn:V; [right | now left].
    apply verdict_true_inv in V. destruct V as [V|[_ [h [Eh [Lh [P [S _]]]]]]].
    - contradiction.
    - exists h. split; [exact Eh|]. split; [exact Lh|]. split.
      + apply prefix_scan_spec; [now apply Forall_u32_firstn | exact P].
      + apply suffix_scan_spec; [now apply Forall_u32_skipn | exact S]. }
  destruct Inv as [U|[h [Eh Sh]]]; [repeat split; intros; exact U|].
  repeat split.
  - intros Hp Hs. exfalso. apply Hs.
    simpl in Hp. destruct Hp as [E|[E|[E|[E|[E|[]]]]]]; rewrite <- E in Eh;
      inversion Eh; subst h; exact Sh.
  - intros Hp Hs. exfalso. apply Hs.
    rewrite Hp in Eh. inversion Eh; subst h; exact Sh.
  - intros Hp. exfalso. apply Hp.
    destruct (hardened_der_len_cases _ _ Eh) as [[_ _]|[_ E]].
    + revert Eh. unfold hardened_der_len.
      destruct (Z.eqb_spec (index_of (cell path 0)) 44) as [->|]; [simpl; auto|].
      destruct (Z.eqb_spec (index_of (cell path 0)) 49) as [->|]; [simpl; auto|].
      destruct (Z.eqb_spec (index_of (cell path 0)) 84) as [->|]; [simpl; auto|].
      destruct (Z.eqb_spec (index_of (cell path 0)) 86) as [->|]; [simpl; auto|].
      destruct (Z.eqb_spec (index_of (cell path 0)) 45) as [->|]; [simpl; auto 6|].
      destruct (Z.eqb_spec (index_of (cell path 0)) 48) as [->|]; [simpl; auto 7|].
      discriminate.
    + rewrite E. simpl. auto 7.
Qed.

(** A path that is not a legacy exception needs an accepted coin type and an
    account within the bound. *)
Lemma unsafe_coin_or_account (max_account : Z) (path coins : list Z) :
  ~ In path legacy_exceptions ->
  ~ In (index_of (cell path 1)) coins \/ index_of (cell path 2) > max_account ->
  is_safe max_account path coins = Some false.
Proof.
  intros Hn Hbad. rewrite is_safe_verdict.
  destruct (verdict _ _ _ _ _) eqn:V; [exfalso | reflexivity].
  apply verdict_true_inv in V.
  destruct V as [V|[_ [h [_ [_ [_ [_ [C [A _]]]]]]]]]; [contradiction|].
  destruct Hbad as [Hc|Ha]; [now apply Hc | lia].
Qed.

(** C7: a path of purpose 48 is classified safe only if it has a fourth
    component whose value, masked of the hardened flag, is 1 or 2; with any
    other fourth component it is classified unsafe. *)
Theorem bip48_script_type_checked (max_account : Z) (path coins : list Z) :
  index_of (cell path 0) = 48 ->
  (is_safe max_account path coins = Some true ->
   (4 <= length path)%nat /\
   (index_of (cell path 3) = 1 \/ index_of (cell path 3) = 2)) /\
  (index_of (cell path 3) <> 1 -> index_of (cell path 3) <> 2 ->
   is_safe max_account path coins = Some false).
Proof.
  intros P48.
  assert (Inv : verdict max_account path (length path) coins (length coins) = true ->
                (4 <= length path)%nat /\
                (index_of (cell path 3) = 1 \/ index_of (cell path 3) = 2)).
  { intros V. apply verdict_true_inv in V.
    destruct V as [L|[_ [h [Eh [Lh [_ [_ [_ [_ T]]]]]]]]].
    - destruct L as [<-|[<-|[<-|[]]]]; discriminate P48.
    - rewrite P48 in Eh. inversion Eh; subst h.
      split; [exact Lh | now apply T]. }
  rewrite is_safe_verdict. split.
  - intros E. inversion E as [V]. now apply Inv.
  - intros N1 N2. destruct (verdict _ _ _ _ _); [|reflexivity].
    destruct Inv as [_ [E|E]]; [reflexivity | contradiction | contradiction].
Qed.

(** C10: when the arrays hold at least as many cells as their announced
    lengths, the policy function returns a boolean and reads only cells below
    these lengths; in particular it reads the fourth path component only when
    the path length is at least 4. *)
Theorem policy_reads_in_bounds (max_account : Z) (path : list Z) (len : nat)
    (coins : list Z) (clen : nat) :
  (len <= length path)%nat -> (clen <= length coins)%nat ->
  exists b : bool,
    result (is_path_safe_for_pubkey_export max_account path len coins clen) = Some b /\
    Forall (in_bounds len clen)
      (reads (is_path_safe_for_pubkey_export max_account path len coins clen)) /\
    (In (RdPath 3)
       (reads (is_path_safe_for_pubkey_export max_account path len coins clen)) ->
     (4 <= len)%nat).
Proof.
  intros Hl Hc.
  destruct (policy_runs max_account path len coins clen Hl Hc) as [Hr Hb].
  exists (verdict max_account path len coins clen).
  split; [exact Hr|]. split; [exact Hb|].
  intros Hin. rewrite Forall_forall in Hb. apply (Hb _ Hin).
Qed.

End PolicyProps.

(** ** Decoding the request *)

Module BufferFacts.
Import Buffer Spec.

Lemma u8_range (b : Byte.byte) : 0 <= u8 b < 256.
Proof.
  unfold u8. pose proof (Byte.to_N_bounded b) as Hb. lia.
Qed.

Lemma unread_seek_cur (b : buffer_t) (n : nat) :
  unread (seek_cur b n) = skipn n (unread b).
Proof.
  unfold unread, seek_cur. simpl.
  rewrite skipn_skipn. f_equal. lia.
Qed.

Lemma buffer_read_u8_some (b : buffer_t) (x : Byte.byte) (rest : list Byte.byte) :
  unread b = x :: rest ->
  buffer_read_u8 b = Some (u8 x, seek_cur b 1) /\ unread (seek_cur b 1) = rest.
Proof.
  intros E. unfold buffer_read_u8. rewrite unread_seek_cur, E. split; reflexivity.
Qed.

Lemma buffer_read_u8_inv (b b' : buffer_t) (v : Z) :
  buffer_read_u8 b = Some (v, b') ->
  exists x, unread b = x :: unread b' /\ v = u8 x /\ b' = seek_cur b 1.
Proof.
  unfold buffer_read_u8. destruct (unread b) as [|x rest] eqn:E; [discriminate|].
  intros I. inversion I; subst. exists x.
  rewrite unread_seek_cur, E. repeat split.
Qed.

Lemma bip32_path_read_length (n : nat) :
  forall (bytes : list Byte.byte) (out : list Z),
  bip32_path_read bytes n = Some out -> length out = n.
Proof.
  induction n as [|n IH]; intros bytes out; simpl.
  - intros E. inversion E. reflexivity.
  - destruct bytes as [|b0 [|b1 [|b2 [|b3 rest]]]]; try discriminate.
    destruct (bip32_path_read rest n) as [o|] eqn:E; [|discriminate].
    intros I. inversion I; subst. simpl. f_equal. now apply (IH rest).
Qed.

Lemma bip32_path_read_truncated (n : nat) :
  forall bytes : list Byte.byte,
  (length bytes < 4 * n)%nat -> bip32_path_read bytes n = None.
Proof.
  induction n as [|n IH]; intros bytes Hl; simpl in *; [lia|].
  destruct bytes as [|b0 [|b1 [|b2 [|b3 rest]]]]; try reflexivity.
  rewrite IH; [reflexivity | simpl in Hl; lia].
Qed.

Lemma buffer_read_bip32_path_length (b b' : buffer_t) (n : nat) (out : list Z) :
  buffer_read_bip32_path b n = Some (out, b') -> length out = n.
Proof.
  unfold buffer_read_bip32_path.
  destruct (bip32_path_read (unread b) n) as [o|] eqn:E; [|discriminate].
  intros I. inversion I; subst. now apply bip32_path_read_length in E.
Qed.

End BufferFacts.

(** ** What the handler does *)

Module HandlerFacts.
Import Mem Policy Buffer Handler Spec MemFacts PolicyFacts BufferFacts.

Section WithPlatform.

Variable MAX_BIP32_PATH_STEPS : Z.
Variable MAX_BIP44_ACCOUNT_RECOMMENDED : Z.
Variable BIP44_COIN_TYPE : Z.
Variable BIP44_COIN_TYPE_2 : Z.
Variable pin_is_validated : bool.
Variable get_serialized_extended_pubkey_at_path : list Z -> option string.
Variable bip32_path_format : list Z -> string.
Variable ui_display_pubkey : string -> bool -> string -> bool.

Abbreviation handler :=
  (handler_get_extended_pubkey MAX_BIP32_PATH_STEPS MAX_BIP44_ACCOUNT_RECOMMENDED
     BIP44_COIN_TYPE BIP44_COIN_TYPE_2 pin_is_validated
     get_serialized_extended_pubkey_at_path bip32_path_format ui_display_pubkey).
Abbreviation check :=
  (check_path MAX_BIP44_ACCOUNT_RECOMMENDED BIP44_COIN_TYPE BIP44_COIN_TYPE_2).
Abbreviation reply :=
  (derive_and_reply get_serialized_extended_pubkey_at_path bip32_path_format
     ui_display_pubkey).

(** The handler's call of the policy never reads outside its arrays. *)
Lemma check_path_total (path : list Z) :
  exists b : bool, result (check path (length path)) = Some b.
Proof.
  eexists. apply (policy_runs _ path (length path) _ 2%nat); simpl; lia.
Qed.

(** The four ways the handler can end once the gate is passed. *)
Lemma derive_and_reply_cases (display : Z) (path : list Z) (is_safe : bool) :
  let tr := reply display path (Z.of_nat (length path)) is_safe in
  let text := path_text bip32_path_format path in
  (get_serialized_extended_pubkey_at_path path = None /\
   tr = [Derive path None; SendSW SW_BAD_STATE]) \/
  (exists key,
     get_serialized_extended_pubkey_at_path path = Some key /\
     ((display = 0 /\
       tr = Derive path (Some key) :: formatting path
            ++ [SendResponse key SW_OK]) \/
      (display <> 0 /\
       ui_display_pubkey text (negb is_safe) key = false /\
       tr = Derive path (Some key) :: formatting path
            ++ [Display text (negb is_safe) key false; SendSW SW_DENY]) \/
      (display <> 0 /\
       ui_display_pubkey text (negb is_safe) key = true /\
       tr = Derive path (Some key) :: formatting path
            ++ [Display text (negb is_safe) key true;
                SendResponse key SW_OK]))).
Proof.
  unfold derive_and_reply.
  destruct (get_serialized_extended_pubkey_at_path path) as [key|];
    [right; exists key; split; [reflexivity|] | left; split; reflexivity].
  assert (Hf : (if Z.of_nat (length path) >? 0
                then (bip32_path_format path, [Format path])
                else ("(Master key)"%string, []))
               = (path_text bip32_path_format path, formatting path)).
  { destruct path; reflexivity. }
  rewrite Hf. cbn [fst snd].
  destruct (Z.eqb_spec display 0) as [D|D]; cbn [negb].
  - left. split; [exact D | reflexivity].
  - right.
    destruct (ui_display_pubkey _ _ key) eqn:U; cbn [negb].
    + right. split; [exact D|]. split; reflexivity.
    + left. split; [exact D|]. split; reflexivity.
Qed.

(** A well-formed request passes decoding and reaches the gate. *)
Lemma handler_decoded (dc dc' : dispatcher_context_t) (display : Z) (path : list Z) :
  pin_is_validated = true ->
  decodes MAX_BIP32_PATH_STEPS dc display path dc' ->
  exists is_safe : bool,
    result (check path (length path)) = Some is_safe /\
    handler dc
    = Some (dc',
            if negb is_safe && (display =? 0)
            then [SendSW SW_NOT_SUPPORTED]
            else reply display path (Z.of_nat (length path)) is_safe).
Proof.
  intros Hpin (n & b1 & b2 & b3 & R1 & R2 & Hd & Hn & R3 & ->).
  destruct (check_path_total path) as [is_safe Hs]. exists is_safe.
  split; [exact Hs|].
  pose proof (buffer_read_bip32_path_length _ _ _ _ R3) as Hlen.
  destruct (buffer_read_u8_inv _ _ _ R2) as (x & _ & -> & _).
  pose proof (u8_range x) as Hx.
  unfold handler_get_extended_pubkey. rewrite Hpin, R1, R2. cbn [negb].
  destruct (Z.gtb_spec display 1) as [|_]; [lia|].
  destruct (Z.gtb_spec (u8 x) MAX_BIP32_PATH_STEPS) as [|_]; [lia|].
  cbn [orb]. rewrite R3, <- Hlen, Hs.
  replace (Z.of_nat (length path)) with (u8 x) by lia.
  destruct (negb is_safe && (display =? 0)); reflexivity.
Qed.


End WithPlatform.

End HandlerFacts.

(** ** Properties of the handler *)

Module HandlerProps.
Import Mem Policy Buffer Handler Spec.
Import MemFacts PolicyFacts PolicyProps BufferFacts HandlerFacts.

Section WithPlatform.

Variable MAX_BIP32_PATH_STEPS : Z.
Variable MAX_BIP44_ACCOUNT_RECOMMENDED : Z.
Variable BIP44_COIN_TYPE : Z.
Variable BIP44_COIN_TYPE_2 : Z.
Variable pin_is_validated : bool.
Variable get_serialized_extended_pubkey_at_path : list Z -> option string.
Variable bip32_path_format : list Z -> string.
Variable ui_display_pubkey : string -> bool -> string -> bool.

Abbreviation handler :=
  (handler_get_extended_pubkey MAX_BIP32_PATH_STEPS MAX_BIP44_ACCOUNT_RECOMMENDED
     BIP44_COIN_TYPE BIP44_COIN_TYPE_2 pin_is_validated
     get_serialized_extended_pubkey_at_path bip32_path_format ui_display_pubkey).
Abbreviation check :=
  (check_path MAX_BIP44_ACCOUNT_RECOMMENDED BIP44_COIN_TYPE BIP44_COIN_TYPE_2).

(** C2: on an unlocked device, a well-formed request whose display flag is 0
    and whose path the policy classifies unsafe ends with the status "not
    supported" and with nothing else: no key is derived or sent. *)
Theorem unsafe_without_display_not_supported
    (dc dc' : dispatcher_context_t) (path : list Z) :
  pin_is_validated = true ->
  decodes MAX_BIP32_PATH_STEPS dc 0 path dc' ->
  result (check path (length path)) = Some false ->
  handler dc = Some (dc', [SendSW SW_NOT_SUPPORTED]).
Proof.
  intros Hpin Hdec Hunsafe.
  destruct (handler_decoded MAX_BIP32_PATH_STEPS MAX_BIP44_ACCOUNT_RECOMMENDED
              BIP44_COIN_TYPE BIP44_COIN_TYPE_2 pin_is_validated
              get_serialized_extended_pubkey_at_path bip32_path_format
              ui_display_pubkey dc dc' 0 path Hpin Hdec) as (is_safe & Hs & Hh).
  rewrite Hunsafe in Hs. inversion Hs; subst is_safe. exact Hh.
Qed.

(** C6: a path of at least three components that is not a legacy exception is
    classified unsafe if its second component, masked of the hardened flag, is
    none of the accepted coin types, or if its third component, masked,
    exceeds the maximum recommended account; the handler accepts exactly the
    two coin types [BIP44_COIN_TYPE] and [BIP44_COIN_TYPE_2]. *)
Theorem coin_type_and_account_checked (path coins : list Z) :
  (3 <= length path)%nat -> ~ In path legacy_exceptions ->
  (~ In (index_of (cell path 1)) coins \/
   index_of (cell path 2) > MAX_BIP44_ACCOUNT_RECOMMENDED ->
   is_safe MAX_BIP44_ACCOUNT_RECOMMENDED path coins = Some false) /\
  ((index_of (cell path 1) <> BIP44_COIN_TYPE /\
    index_of (cell path 1) <> BIP44_COIN_TYPE_2) \/
   index_of (cell path 2) > MAX_BIP44_ACCOUNT_RECOMMENDED ->
   result (check path (length path)) = Some false).
Proof.
  intros _ Hn. split.
  - now apply unsafe_coin_or_account.
  - intros Hbad.
    apply (unsafe_coin_or_account MAX_BIP44_ACCOUNT_RECOMMENDED path
             [BIP44_COIN_TYPE; BIP44_COIN_TYPE_2] Hn).
    destruct Hbad as [[H1 H2]|Ha]; [left | now right].
    simpl. intros [E|[E|[]]]; congruence.
Qed.

(** C8: on an unlocked device, a request too short for the display flag and
    the path length ends with "wrong data length"; one whose display flag is
    above 1 or whose path length is above the maximum ends with "incorrect
    data", whatever follows the header and with every byte after the header
    still unread; one whose body is shorter than the announced path ends with
    "wrong data length". *)
Theorem decoding_errors (dc : dispatcher_context_t) :
  pin_is_validated = true ->
  ((length (unread (read_buffer dc)) < 2)%nat ->
   exists dc', handler dc = Some (dc', [SendSW SW_WRONG_DATA_LENGTH])) /\
  (forall d n rest,
     unread (read_buffer dc) = d :: n :: rest ->
     u8 d > 1 \/ u8 n > MAX_BIP32_PATH_STEPS ->
     exists dc',
       handler dc = Some (dc', [SendSW SW_INCORRECT_DATA]) /\
       unread (read_buffer dc') = rest) /\
  (forall d n rest,
     unread (read_buffer dc) = d :: n :: rest ->
     u8 d <= 1 -> u8 n <= MAX_BIP32_PATH_STEPS ->
     (length rest < 4 * Z.to_nat (u8 n))%nat ->
     exists dc', handler dc = Some (dc', [SendSW SW_WRONG_DATA_LENGTH])).
Proof.
  intros Hpin. unfold handler_get_extended_pubkey. rewrite Hpin. cbn [negb].
  split; [|split].
  - intros Hshort. unfold buffer_read_u8 at 1.
    destruct (unread (read_buffer dc)) as [|d [|n rest]] eqn:Hu.
    + eexists. reflexivity.
    + destruct (buffer_read_u8_some _ _ _ Hu) as [_ Hu1].
      unfold buffer_read_u8. rewrite Hu1. eexists. reflexivity.
    + simpl in Hshort. lia.
  - intros d n rest Hu Hbad.
    destruct (buffer_read_u8_some _ _ _ Hu) as [R1 Hu1]. rewrite R1.
    destruct (buffer_read_u8_some _ _ _ Hu1) as [R2 Hu2]. rewrite R2.
    assert (E : (u8 d >? 1) || (u8 n >? MAX_BIP32_PATH_STEPS) = true).
    { apply orb_true_iff. rewrite !Z.gtb_ltb, !Z.ltb_lt. lia. }
    rewrite E. eexists. split; [reflexivity | exact Hu2].
  - intros d n rest Hu Hd Hn Hshort.
    destruct (buffer_read_u8_some _ _ _ Hu) as [R1 Hu1]. rewrite R1.
    destruct (buffer_read_u8_some _ _ _ Hu1) as [R2 Hu2]. rewrite R2.
    assert (E : (u8 d >? 1) || (u8 n >? MAX_BIP32_PATH_STEPS) = false).
    { apply orb_false_iff. rewrite !Z.gtb_ltb, !Z.ltb_ge. lia. }
    rewrite E. unfold buffer_read_bip32_path. rewrite Hu2.
    rewrite bip32_path_read_truncated by exact Hshort.
    eexists. reflexivity.
Qed.

(** A trace made of a single status word has no formatter call and no
    confirmation screen. *)
Ltac status_only :=
  do 2 eexists; split; [reflexivity|];
  split; [intros p [E|[]]; discriminate E|];
  split; [intros text u k a [E|[]]; discriminate E|];
  intros; try discriminate; lia.

Ltac in_trace H :=
  repeat (destruct H as [H|H]; [inversion H; subst | ]); try contradiction.

(** C9: for a request whose path length is zero, the path formatter is never
    called and whatever the confirmation screen shows as the path is the
    literal "(Master key)", not the empty string; and the screen is reached,
    with that text, when the device is unlocked, display is requested and the
    derivation succeeds. *)
Theorem empty_path_shows_master_key
    (dc : dispatcher_context_t) (d : Byte.byte) (rest : list Byte.byte) :
  unread (read_buffer dc) = d :: Byte.x00 :: rest ->
  exists dc' tr,
    handler dc = Some (dc', tr) /\
    (forall p, ~ In (Format p) tr) /\
    (forall text u k a,
       In (Display text u k a) tr ->
       text = "(Master key)"%string /\ text <> EmptyString) /\
    (pin_is_validated = true -> u8 d = 1 -> 0 <= MAX_BIP32_PATH_STEPS ->
     forall key,
       get_serialized_extended_pubkey_at_path [] = Some key ->
       In (Display "(Master key)" true key
             (ui_display_pubkey "(Master key)" true key)) tr).
Proof.
  intros Hu.
  destruct (buffer_read_u8_some _ _ _ Hu) as [R1 Hu1].
  destruct (buffer_read_u8_some _ _ _ Hu1) as [R2 Hu2].
  change (u8 Byte.x00) with 0 in R2.
  unfold handler_get_extended_pubkey.
  destruct pin_is_validated; cbn [negb]; [|status_only].
  rewrite R1, R2.
  destruct (Z.gtb_spec (u8 d) 1) as [Hd|Hd]; cbn [orb]; [status_only|].
  destruct (Z.gtb_spec 0 MAX_BIP32_PATH_STEPS) as [Hm|Hm]; [status_only|].
  change (buffer_read_bip32_path
            (seek_cur (seek_cur (read_buffer dc) 1) 1) (Z.to_nat 0))
    with (Some (@nil Z, seek_cur (seek_cur (seek_cur (read_buffer dc) 1) 1) 0)).
  change (result (check [] (Z.to_nat 0))) with (Some false).
  cbn [negb andb].
  destruct (Z.eqb_spec (u8 d) 0) as [D0|D0]; [status_only|].
  do 2 eexists. split; [reflexivity|].
  pose proof (derive_and_reply_cases get_serialized_extended_pubkey_at_path
                bip32_path_format ui_display_pubkey (u8 d) [] false) as Hc.
  cbn [length Z.of_nat path_text formatting negb app] in Hc.
  destruct Hc as [[Hn ->]|(key & Hk & [[Hz _]|[(_ & Hui & ->)|(_ & Hui & ->)]])];
    [|contradiction| |].
  - split; [intros p Hin; in_trace Hin|].
    split; [intros text u k a Hin; in_trace Hin|].
    intros _ _ _ k Hk. congruence.
  - split; [intros p Hin; in_trace Hin|].
    split; [intros text u k a Hin; in_trace Hin; split; [reflexivity|discriminate]|].
    intros _ _ _ k Hk'. rewrite Hk in Hk'. inversion Hk'; subst k.
    rewrite Hui. simpl. auto.
  - split; [intros p Hin; in_trace Hin|].
    split; [intros text u k a Hin; in_trace Hin; split; [reflexivity|discriminate]|].
    intros _ _ _ k Hk'. rewrite Hk in Hk'. inversion Hk'; subst k.
    rewrite Hui. simpl. auto.
Qed.




End WithPlatform.

End HandlerProps.

(** ** The properties at work on the sample device *)

Module Examples.
Import Mem Policy Buffer Handler Spec Sample.
Import PolicyProps HandlerProps.

Ltac not_legacy_path :=
  intros [E|[E|[E|[]]]]; discriminate E.

Ltac all_u32 := repeat constructor; unfold u32; lia.


(** C4 as stated fails: m/0'/45342' has two components and is safe. *)
Lemma short_legacy_path_is_safe :
  ~ (forall path : list Z,
       (length path < 3)%nat ->
       is_safe max_account path [coin; coin_2] = Some false).
Proof.
  intros C.
  assert (L : (length legacy_0_45342 < 3)%nat) by (simpl; lia).
  specialize (C legacy_0_45342 L). discriminate C.
Qed.

(** Display 0 and m/44'/88'/50000000': "not supported" and nothing else. *)
Lemma unsafe_without_display_witness :
  device true false (request silent_big_account)
  = Some ({| read_buffer := {| ptr := silent_big_account; offset := 14 |} |},
          [SendSW SW_NOT_SUPPORTED]).
Proof.
  apply (unsafe_without_display_not_supported max_steps max_account coin coin_2
           true (fun _ => Some xpub) (fun _ => path_str) (fun _ _ _ => false)
           (request silent_big_account) _ big_account_path).
  - reflexivity.
  - exists 3, {| ptr := silent_big_account; offset := 1 |},
      {| ptr := silent_big_account; offset := 2 |},
      {| ptr := silent_big_account; offset := 14 |}.
    repeat split; try reflexivity; unfold max_steps; lia.
  - reflexivity.
Defined.

(** m/20698'/3053'/12648430' is safe. *)
Lemma legacy_exceptions_safe_witness :
  In legacy_20698 legacy_exceptions /\
  is_safe max_account legacy_20698 [coin; coin_2] = Some true.
Proof.
  assert (L : In legacy_20698 legacy_exceptions) by (simpl; auto).
  split; [exact L|].
  apply (legacy_exceptions_safe max_account legacy_20698 [coin; coin_2] L).
Defined.

(** m/44'/88' is unsafe. *)
Lemma short_paths_unsafe_witness :
  is_safe max_account [0x8000002C; 0x80000058] [coin; coin_2] = Some false.
Proof.
  apply (short_paths_unsafe_except_legacy max_account
           [0x8000002C; 0x80000058] [coin; coin_2]).
  - simpl. lia.
  - intros E. discriminate E.
Defined.

(** m/44'/88'/0 and m/48'/88'/0' break the rule of their purpose. *)
Lemma hardening_shape_witness :
  is_safe max_account soft_account_path [coin; coin_2] = Some false /\
  is_safe max_account short_bip48_path [coin; coin_2] = Some false.
Proof.
  assert (U1 : Forall u32 soft_account_path) by all_u32.
  assert (L1 : (3 <= length soft_account_path)%nat) by (simpl; lia).
  assert (N1 : ~ In soft_account_path legacy_exceptions) by not_legacy_path.
  assert (U2 : Forall u32 short_bip48_path) by all_u32.
  assert (L2 : (3 <= length short_bip48_path)%nat) by (simpl; lia).
  assert (N2 : ~ In short_bip48_path legacy_exceptions) by not_legacy_path.
  split.
  - apply (proj1 (hardening_shape_required max_account soft_account_path
                    [coin; coin_2] U1 L1 N1)).
    + simpl. auto.
    + intros (_ & F & _).
      apply Forall_inv_tail, Forall_inv_tail, Forall_inv in F. discriminate F.
  - apply (proj1 (proj2 (hardening_shape_required max_account short_bip48_path
                           [coin; coin_2] U2 L2 N2))).
    + reflexivity.
    + intros (L & _). simpl in L. lia.
Defined.

(** m/44'/1'/0' has another coin type, m/44'/88'/50000000' too large an
    account. *)
Lemma coin_type_and_account_witness :
  is_safe max_account other_coin_path [coin; coin_2] = Some false /\
  result (check_path max_account coin coin_2 big_account_path 3) = Some false.
Proof.
  assert (L1 : (3 <= length other_coin_path)%nat) by (simpl; lia).
  assert (N1 : ~ In other_coin_path legacy_exceptions) by not_legacy_path.
  assert (L2 : (3 <= length big_account_path)%nat) by (simpl; lia).
  assert (N2 : ~ In big_account_path legacy_exceptions) by not_legacy_path.
  split.
  - apply (proj1 (coin_type_and_account_checked max_account coin coin_2
                    other_coin_path [coin; coin_2] L1 N1)).
    left. intros [E|[E|[]]]; discriminate E.
  - apply (proj2 (coin_type_and_account_checked max_account coin coin_2
                    big_account_path [coin; coin_2] L2 N2)).
    right. reflexivity.
Defined.

(** m/48'/88'/0'/3' has a script type that is neither 1 nor 2. *)
Lemma bip48_script_type_witness :
  is_safe max_account bad_script_path [coin; coin_2] = Some false.
Proof.
  apply (proj2 (bip48_script_type_checked max_account bad_script_path
                  [coin; coin_2] eq_refl)).
  - intros E. discriminate E.
  - intros E. discriminate E.
Defined.

(** A lone byte, a path length of 11 and a truncated body. *)
Lemma decoding_errors_witness :
  (exists dc', device true false (request lone_byte)
               = Some (dc', [SendSW SW_WRONG_DATA_LENGTH])) /\
  (exists dc', device true false (request eleven_steps)
               = Some (dc', [SendSW SW_INCORRECT_DATA]) /\
               unread (read_buffer dc') = []) /\
  (exists dc', device true false (request truncated_body)
               = Some (dc', [SendSW SW_WRONG_DATA_LENGTH])).
Proof.
  split; [|split].
  - apply (proj1 (decoding_errors max_steps max_account coin coin_2 true
             (fun _ => Some xpub) (fun _ => path_str) (fun _ _ _ => false)
             (request lone_byte) eq_refl)).
    simpl. lia.
  - apply (proj1 (proj2 (decoding_errors max_steps max_account coin coin_2 true
             (fun _ => Some xpub) (fun _ => path_str) (fun _ _ _ => false)
             (request eleven_steps) eq_refl)) Byte.x01 Byte.x0b []).
    + reflexivity.
    + right. reflexivity.
  - apply (proj2 (proj2 (decoding_errors max_steps max_account coin coin_2 true
             (fun _ => Some xpub) (fun _ => path_str) (fun _ _ _ => false)
             (request truncated_body) eq_refl)) Byte.x01 Byte.x01 [Byte.x00]).
    + reflexivity.
    + discriminate.
    + discriminate.
    + simpl. lia.
Defined.

(** Display 1 and the empty path: the screen shows "(Master key)". *)
Lemma empty_path_witness :
  exists dc' tr,
    device true true (request shown_master_key) = Some (dc', tr) /\
    (forall p, ~ In (Format p) tr) /\
    In (Display "(Master key)" true xpub true) tr.
Proof.
  destruct (empty_path_shows_master_key max_steps max_account coin coin_2 true
              (fun _ => Some xpub) (fun _ => path_str) (fun _ _ _ => true)
              (request shown_master_key) Byte.x01 [] eq_refl)
    as (dc' & tr & Hh & Hf & _ & Hd).
  exists dc', tr. split; [exact Hh|]. split; [exact Hf|].
  apply (Hd eq_refl eq_refl); [discriminate | reflexivity].
Defined.

(** On m/48'/88'/0' the fourth component is never read. *)
Lemma policy_reads_in_bounds_witness :
  exists b : bool,
    result (is_path_safe_for_pubkey_export max_account short_bip48_path 3
              [coin; coin_2] 2) = Some b /\
    Forall (in_bounds 3 2)
      (reads (is_path_safe_for_pubkey_export max_account short_bip48_path 3
                [coin; coin_2] 2)) /\
    (In (RdPath 3)
       (reads (is_path_safe_for_pubkey_export max_account short_bip48_path 3
                 [coin; coin_2] 2)) -> (4 <= 3)%nat).
Proof.
  apply (policy_reads_in_bounds max_account short_bip48_path 3 [coin; coin_2] 2).
  - simpl. lia.
  - simpl. lia.
Defined.

End Examples.

(** ** More about the policy *)

Module PolicyExtras.
Import Mem Spec Rules MemFacts Policy PolicyFacts PolicyProps.

Lemma index_of_mod (x : Z) : index_of x = x mod 2 ^ 31.
Proof.
  unfold index_of. change 0x7FFFFFFF with (Z.ones 31).
  apply Z.land_ones. lia.
Qed.

Lemma index_of_hardened (n : Z) : 0 <= n < 2 ^ 31 -> index_of (hardened n) = n.
Proof.
  intros Hn. rewrite index_of_mod. unfold hardened.
  replace (n + 2 ^ 31) with (n + 1 * 2 ^ 31) by lia.
  rewrite Z.mod_add by lia. now apply Z.mod_small.
Qed.

Lemma u32_hardened (n : Z) : 0 <= n < 2 ^ 31 -> u32 (hardened n).
Proof. unfold u32, hardened. lia. Qed.

Lemma is_hardened_hardened (n : Z) : 0 <= n < 2 ^ 31 -> is_hardened (hardened n).
Proof.
  intros Hn. unfold is_hardened. rewrite testbit_31 by now apply u32_hardened.
  unfold hardened. apply negb_true_iff, Z.ltb_ge. lia.
Qed.

Lemma soft_not_hardened (x : Z) : 0 <= x < 2 ^ 31 -> ~ is_hardened x.
Proof.
  intros Hx. unfold is_hardened. rewrite testbit_31 by (unfold u32; lia).
  intros E. apply negb_true_iff, Z.ltb_ge in E. lia.
Qed.

Lemma prefix_for_spec (purpose : Z) (h : nat) :
  prefix_for purpose h <-> hardened_der_len purpose = Some h.
Proof.
  unfold prefix_for, standard_purposes, hardened_der_len. split.
  - intros [[Hp ->]|[-> ->]]; [|reflexivity].
    simpl in Hp. destruct Hp as [<-|[<-|[<-|[<-|[<-|[]]]]]]; reflexivity.
  - destruct (Z.eqb_spec purpose 44) as [->|];
      [intros E; inversion E; left; split; [simpl; tauto | reflexivity]|].
    destruct (Z.eqb_spec purpose 49) as [->|];
      [intros E; inversion E; left; split; [simpl; tauto | reflexivity]|].
    destruct (Z.eqb_spec purpose 84) as [->|];
      [intros E; inversion E; left; split; [simpl; tauto | reflexivity]|].
    destruct (Z.eqb_spec purpose 86) as [->|];
      [intros E; inversion E; left; split; [simpl; tauto | reflexivity]|].
    destruct (Z.eqb_spec purpose 45) as [->|];
      [intros E; inversion E; left; split; [simpl; tauto | reflexivity]|].
    destruct (Z.eqb_spec purpose 48) as [->|];
      [intros E; inversion E; right; split; reflexivity|].
    discriminate.
Qed.

(** The converse of [verdict_true_inv]. *)
Lemma verdict_true_intro (max_account : Z) (path coins : list Z) (h : nat) :
  hardened_der_len (index_of (cell path 0)) = Some h ->
  (h <= length path)%nat ->
  forallb (fun x => negb (x <? 0x80000000)) (firstn h path) = true ->
  forallb (fun x => negb (x >=? 0x80000000)) (skipn h path) = true ->
  In (index_of (cell path 1)) coins ->
  index_of (cell path 2) <= max_account ->
  (index_of (cell path 0) = 48 ->
   index_of (cell path 3) = 1 \/ index_of (cell path 3) = 2) ->
  verdict max_account path (length path) coins (length coins) = true.
Proof.
  unfold verdict, index_of. intros Eh Lh P S C A T.
  apply orb_true_iff. right.
  assert (H3 : (3 <= h)%nat)
    by (destruct (hardened_der_len_cases _ _ Eh) as [[-> _]|[-> _]]; lia).
  rewrite Eh.
  rewrite firstn_all2 with (l := skipn h path) by (rewrite length_skipn; lia).
  rewrite firstn_all, P, S.
  replace (length path <? 3)%nat with false by (symmetry; apply Nat.ltb_ge; lia).
  replace (length path <? h)%nat with false by (symmetry; apply Nat.ltb_ge; lia).
  cbn [negb andb].
  replace (existsb _ coins) with true.
  2:{ symmetry. apply existsb_exists. eexists. split; [exact C|]. apply Z.eqb_refl. }
  replace (_ >? max_account) with false
    by (symmetry; rewrite Z.gtb_ltb; apply Z.ltb_ge; exact A).
  cbn [negb andb].
  destruct (Z.eqb_spec (Z.land (cell path 0) 0x7FFFFFFF) 48) as [E|E]; [|reflexivity].
  cbn [negb orb]. apply orb_true_iff.
  destruct (T E) as [T1|T1]; rewrite T1; auto.
Qed.

(** Safe means: a legacy exception, or every general rule passed. *)
Lemma is_safe_true_iff (max_account : Z) (path coins : list Z) :
  Forall u32 path ->
  is_safe max_account path coins = Some true <->
  In path legacy_exceptions \/ passes_rules max_account path coins.
Proof.
  intros Hu. rewrite is_safe_verdict. split.
  - intros E. inversion E as [V]. apply verdict_true_inv in V.
    destruct V as [L|(_ & h & Eh & Lh & P & S & C & A & T)]; [now left | right].
    exists h. split; [now apply prefix_for_spec|].
    split; [|now repeat split].
    split; [exact Lh|]. split.
    + apply prefix_scan_spec; [now apply Forall_u32_firstn | exact P].
    + apply suffix_scan_spec; [now apply Forall_u32_skipn | exact S].
  - intros [L|(h & Ph & (Lh & P & S) & C & A & T)]; f_equal.
    + destruct L as [<-|[<-|[<-|[]]]]; reflexivity.
    + apply (verdict_true_intro max_account path coins h); try assumption.
      * now apply prefix_for_spec.
      * apply prefix_scan_spec; [now apply Forall_u32_firstn | exact P].
      * apply suffix_scan_spec; [now apply Forall_u32_skipn | exact S].
Qed.

Lemma is_safe_cases (max_account : Z) (path coins : list Z) :
  is_safe max_account path coins = Some true \/
  is_safe max_account path coins = Some false.
Proof.
  rewrite is_safe_verdict. destruct (verdict _ _ _ _ _); auto.
Qed.

Lemma cell_app (l : list Z) (x : Z) (i : nat) :
  (i < length l)%nat -> cell (l ++ [x]) i = cell l i.
Proof. intros Hi. unfold cell. now apply app_nth1. Qed.

Lemma cell_firstn (l : list Z) (n i : nat) :
  (i < n)%nat -> cell (firstn n l) i = cell l i.
Proof.
  intros Hi. unfold cell. rewrite nth_firstn.
  now replace (i <? n)%nat with true by (symmetry; apply Nat.ltb_lt; exact Hi).
Qed.

Lemma Forall_firstn_of (P : Z -> Prop) (n : nat) (l : list Z) :
  Forall P l -> Forall P (firstn n l).
Proof.
  rewrite !Forall_forall. intros Hl x Hx.
  apply Hl. rewrite <- (firstn_skipn n l). apply in_or_app. now left.
Qed.

Lemma prefix_for_length (purpose : Z) (h : nat) :
  prefix_for purpose h -> (3 <= h <= 4)%nat.
Proof. intros [[_ ->]|[_ ->]]; lia. Qed.

Lemma standard_purpose_range (p : Z) :
  In p standard_purposes -> 0 <= p < 2 ^ 31 /\ p <> 48 /\ p <> 20698.
Proof.
  intros Hp. simpl in Hp.
  destruct Hp as [<-|[<-|[<-|[<-|[<-|[]]]]]]; repeat split; lia.
Qed.

(** The verdict looks at the announced cells only. *)
Lemma verdict_firstn (max_account : Z) (path : list Z) (len : nat)
    (coins : list Z) (clen : nat) :
  verdict max_account path len coins clen
  = verdict max_account (firstn len path) len (firstn clen coins) clen.
Proof.
  unfold verdict.
  assert (E1 : is_electrum path len = is_electrum (firstn len path) len).
  { unfold is_electrum. destruct (Nat.eqb_spec len 4) as [->|]; [|reflexivity].
    now rewrite !cell_firstn by lia. }
  assert (E2 : is_0_45342 path len = is_0_45342 (firstn len path) len).
  { unfold is_0_45342. destruct (Nat.eqb_spec len 2) as [->|]; [|reflexivity].
    now rewrite !cell_firstn by lia. }
  assert (E3 : is_20698 path len = is_20698 (firstn len path) len).
  { unfold is_20698. destruct (Nat.eqb_spec len 3) as [->|]; [|reflexivity].
    now rewrite !cell_firstn by lia. }
  rewrite <- E1, <- E2, <- E3. f_equal.
  destruct (Nat.ltb_spec len 3) as [|L3]; [reflexivity|].
  rewrite (cell_firstn path len 0), (cell_firstn path len 1),
    (cell_firstn path len 2) by lia.
  f_equal.
  destruct (hardened_der_len (Z.land (cell path 0) 0x7FFFFFFF)) as [h|] eqn:Eh;
    [|reflexivity].
  destruct (Nat.ltb_spec len h) as [|Lh]; [reflexivity|].
  rewrite !firstn_firstn, skipn_firstn_comm, firstn_firstn.
  rewrite !Nat.min_id. replace (Nat.min h len) with h by lia.
  destruct (hardened_der_len_cases _ _ Eh) as [[-> Hp]|[-> Hp]].
  - apply Z.eqb_neq in Hp. rewrite Hp. reflexivity.
  - now rewrite (cell_firstn path len 3) by lia.
Qed.

(** X1: for 32-bit components, the policy classifies a path safe exactly when
    it is one of the three legacy exceptions or passes every general rule
    (purpose, hardening shape, accepted coin type, account bound, script type
    for purpose 48), and unsafe exactly when it does neither. *)
Theorem safe_exactly_when_rules_pass (max_account : Z) (path coins : list Z) :
  Forall u32 path ->
  (is_safe max_account path coins = Some true <->
   In path legacy_exceptions \/ passes_rules max_account path coins) /\
  (is_safe max_account path coins = Some false <->
   ~ (In path legacy_exceptions \/ passes_rules max_account path coins)).
Proof.
  intros Hu. pose proof (is_safe_true_iff max_account path coins Hu) as I.
  split; [exact I|].
  destruct (is_safe_cases max_account path coins) as [E|E]; rewrite E; split.
  - discriminate.
  - intros N. exfalso. apply N, I, E.
  - intros _ R. apply I in R. congruence.
  - reflexivity.
Qed.

(** X2: the account bound is inclusive. The three-step path
    m/purpose'/coin'/account', with a three-step purpose and an accepted coin
    type, is safe exactly when the account is at most the maximum. *)
Theorem account_bound_inclusive (max_account p c a : Z) (coins : list Z) :
  In p standard_purposes -> In c coins ->
  0 <= c < 2 ^ 31 -> 0 <= a < 2 ^ 31 ->
  is_safe max_account [hardened p; hardened c; hardened a] coins
  = Some (a <=? max_account).
Proof.
  intros Hp Hc Rc Ra.
  destruct (standard_purpose_range p Hp) as (Rp & P48 & P20698).
  assert (Hu : Forall u32 [hardened p; hardened c; hardened a])
    by (repeat constructor; now apply u32_hardened).
  pose proof (is_safe_true_iff max_account _ coins Hu) as I.
  unfold passes_rules, cell in I. cbn [nth] in I.
  rewrite !index_of_hardened in I by assumption.
  destruct (Z.leb_spec a max_account) as [Ha|Ha].
  - apply I. right. exists 3%nat. split; [left; now split|].
    split; [|repeat split; try assumption; intros E; contradiction].
    split; [simpl; lia|]. split; [|constructor].
    repeat constructor; now apply is_hardened_hardened.
  - destruct (is_safe_cases max_account [hardened p; hardened c; hardened a] coins)
      as [E|E]; [exfalso | exact E].
    apply I in E. destruct E as [[E|[E|[E|[]]]]|(h & _ & _ & _ & A & _)];
      try discriminate E; [|lia].
    inversion E as [[E0 E1 E2]]. unfold hardened in E0. lia.
Qed.

(** X3: one more unhardened step keeps a safe path safe, for every path that
    is not a legacy exception. *)
Theorem soft_step_keeps_safe (max_account : Z) (path coins : list Z) (x : Z) :
  Forall u32 path -> ~ In path legacy_exceptions ->
  is_safe max_account path coins = Some true ->
  0 <= x < 2 ^ 31 ->
  is_safe max_account (path ++ [x]) coins = Some true.
Proof.
  intros Hu Hn Hs Hx.
  apply is_safe_true_iff in Hs; [|exact Hu].
  destruct Hs as [L|(h & Ph & (Lh & P & S) & C & A & T)]; [contradiction|].
  pose proof (prefix_for_length _ _ Ph) as Rh.
  apply is_safe_true_iff.
  { apply Forall_app. split; [exact Hu|]. repeat constructor; unfold u32; lia. }
  right. exists h. rewrite !cell_app by lia.
  split; [exact Ph|]. split.
  - split; [rewrite length_app; lia|].
    rewrite firstn_app, skipn_app.
    replace (h - length path)%nat with 0%nat by lia.
    cbn [firstn skipn]. rewrite app_nil_r. split; [exact P|].
    apply Forall_app. split; [exact S|].
    repeat constructor. now apply soft_not_hardened.
  - split; [exact C|]. split; [exact A|].
    intros E. destruct Ph as [[Hp _]|[_ ->]].
    + apply standard_purpose_range in Hp. lia.
    + rewrite cell_app by lia. now apply T.
Qed.

(** X4: a path with a hardened component at index 4 or beyond, wherever it
    stands and whatever follows it, is unsafe. *)
Theorem hardened_beyond_four_is_unsafe (max_account : Z) (path coins : list Z)
    (i : nat) (x : Z) :
  (4 <= i)%nat -> nth_error path i = Some x -> u32 x -> is_hardened x ->
  is_safe max_account path coins = Some false.
Proof.
  intros Hi Hx Hu Hh. rewrite is_safe_verdict.
  destruct (verdict _ _ _ _ _) eqn:V; [exfalso | reflexivity].
  assert (Long : (i < length path)%nat)
    by (apply nth_error_Some; rewrite Hx; discriminate).
  apply verdict_true_inv in V.
  destruct V as [L|(_ & h & Eh & _ & _ & S & _)].
  - destruct L as [E|[E|[E|[]]]]; rewrite <- E in Long; simpl in Long; lia.
  - assert (Rh : (h <= 4)%nat)
      by (destruct (hardened_der_len_cases _ _ Eh) as [[-> _]|[-> _]]; lia).
    assert (Hin : In x (skipn h path)).
    { apply (nth_error_In _ (i - h)). rewrite nth_error_skipn.
      now replace (h + (i - h))%nat with i by lia. }
    rewrite forallb_forall in S. specialize (S x Hin).
    apply negb_true_iff in S.
    unfold is_hardened in Hh. rewrite testbit_31 in Hh by exact Hu.
    apply negb_true_iff in Hh. rewrite Z.geb_leb in S.
    apply Z.ltb_ge in Hh. apply Z.leb_gt in S. lia.
Qed.

(** X5: the result depends on the announced cells only. Two path arrays that
    agree on their first [len] cells, and two coin-type arrays that agree on
    their first [clen] cells, get the same result, whatever the further cells
    hold. *)
Theorem result_ignores_further_cells (max_account : Z) (path path' : list Z)
    (len : nat) (coins coins' : list Z) (clen : nat) :
  (len <= length path)%nat -> (len <= length path')%nat ->
  (clen <= length coins)%nat -> (clen <= length coins')%nat ->
  firstn len path = firstn len path' ->
  firstn clen coins = firstn clen coins' ->
  result (is_path_safe_for_pubkey_export max_account path len coins clen)
  = result (is_path_safe_for_pubkey_export max_account path' len coins' clen).
Proof.
  intros L1 L2 C1 C2 Ep Ec.
  destruct (policy_runs max_account path len coins clen L1 C1) as [-> _].
  destruct (policy_runs max_account path' len coins' clen L2 C2) as [-> _].
  f_equal. rewrite (verdict_firstn _ path), (verdict_firstn _ path'), Ep, Ec.
  reflexivity.
Qed.

(** X6: accepting more coin types or raising the account bound never turns a
    safe path unsafe. *)
Theorem wider_policy_keeps_safe (max_account max_account' : Z)
    (path coins coins' : list Z) :
  is_safe max_account path coins = Some true ->
  incl coins coins' -> max_account <= max_account' ->
  is_safe max_account' path coins' = Some true.
Proof.
  rewrite !is_safe_verdict. intros E Hi Hm. injection E as V. f_equal.
  apply verdict_true_inv in V.
  destruct V as [L|(_ & h & Eh & Lh & P & S & C & A & T)].
  - destruct L as [<-|[<-|[<-|[]]]]; reflexivity.
  - apply (verdict_true_intro max_account' path coins' h); try assumption.
    + now apply Hi.
    + lia.
Qed.

(** X7: a safe path has at least two components, and each of its first three
    components is hardened. *)
Theorem safe_prefix_is_hardened (max_account : Z) (path coins : list Z) :
  Forall u32 path ->
  is_safe max_account path coins = Some true ->
  (2 <= length path)%nat /\ Forall is_hardened (firstn 3 path).
Proof.
  intros Hu Hs. apply is_safe_true_iff in Hs; [|exact Hu].
  destruct Hs as [L|(h & Ph & (Lh & P & _) & _)].
  - destruct L as [<-|[<-|[<-|[]]]]; (split; [simpl; lia|]);
      repeat constructor.
  - pose proof (prefix_for_length _ _ Ph) as Rh. split; [lia|].
    replace (firstn 3 path) with (firstn 3 (firstn h path))
      by (rewrite firstn_firstn; f_equal; lia).
    now apply Forall_firstn_of.
Qed.

(** X8: with no accepted coin type, the legacy exceptions are the only safe
    paths. *)
Theorem no_coin_type_only_legacy (max_account : Z) (path : list Z) :
  is_safe max_account path [] = Some true <-> In path legacy_exceptions.
Proof.
  rewrite is_safe_verdict. split.
  - intros E. injection E as V. apply verdict_true_inv in V.
    destruct V as [L|(_ & h & _ & _ & _ & _ & C & _)]; [exact L | contradiction].
  - intros [<-|[<-|[<-|[]]]]; reflexivity.
Qed.

End PolicyExtras.

(** ** More about the handler *)

Module HandlerExtras.
Import Mem Policy Buffer Handler Spec Rules.
Import MemFacts PolicyFacts BufferFacts HandlerFacts.

Lemma decodes_functional (max_steps : Z) (dc dc1 dc2 : dispatcher_context_t)
    (d1 d2 : Z) (p1 p2 : list Z) :
  decodes max_steps dc d1 p1 dc1 -> decodes max_steps dc d2 p2 dc2 ->
  d1 = d2 /\ p1 = p2 /\ dc1 = dc2.
Proof.
  intros (n & a1 & a2 & a3 & A1 & A2 & _ & _ & A3 & ->)
         (m & b1 & b2 & b3 & B1 & B2 & _ & _ & B3 & ->).
  rewrite A1 in B1. inversion B1; subst.
  rewrite A2 in B2. inversion B2; subst.
  rewrite A3 in B3. inversion B3; subst. repeat split.
Qed.

Lemma decodes_display (max_steps : Z) (dc dc' : dispatcher_context_t)
    (display : Z) (path : list Z) :
  decodes max_steps dc display path dc' -> display = 0 \/ display = 1.
Proof.
  intros (n & b1 & b2 & b3 & R1 & _ & Hd & _).
  destruct (buffer_read_u8_inv _ _ _ R1) as (x & _ & -> & _).
  pose proof (u8_range x). lia.
Qed.

Section WithPlatform.

Variable MAX_BIP32_PATH_STEPS : Z.
Variable MAX_BIP44_ACCOUNT_RECOMMENDED : Z.
Variable BIP44_COIN_TYPE : Z.
Variable BIP44_COIN_TYPE_2 : Z.
Variable pin_is_validated : bool.
Variable get_serialized_extended_pubkey_at_path : list Z -> option string.
Variable bip32_path_format : list Z -> string.
Variable ui_display_pubkey : string -> bool -> string -> bool.

Abbreviation handler :=
  (handler_get_extended_pubkey MAX_BIP32_PATH_STEPS MAX_BIP44_ACCOUNT_RECOMMENDED
     BIP44_COIN_TYPE BIP44_COIN_TYPE_2 pin_is_validated
     get_serialized_extended_pubkey_at_path bip32_path_format ui_display_pubkey).
Abbreviation check :=
  (check_path MAX_BIP44_ACCOUNT_RECOMMENDED BIP44_COIN_TYPE BIP44_COIN_TYPE_2).
Abbreviation decoded := (decodes MAX_BIP32_PATH_STEPS).
Abbreviation text_of := (path_text bip32_path_format).

Ltac no_decoding :=
  intros d p dc'' (n' & c1 & c2 & c3 & Q1 & Q2 & Qd & Qn & Q3 & _);
  repeat match goal with
         | R : ?lhs = _, Q : ?lhs = _ |- _ =>
             rewrite R in Q; try discriminate Q; inversion Q; subst; clear Q
         end;
  try lia.

(** The requests that end before the gate. *)
Lemma handler_rejects (dc : dispatcher_context_t) :
  (pin_is_validated = false /\
   handler dc = Some (dc, [SendSW SW_SECURITY_STATUS_NOT_SATISFIED])) \/
  (pin_is_validated = true /\
   (forall d p dc'', ~ decoded dc d p dc'') /\
   exists dc',
     handler dc = Some (dc', [SendSW SW_WRONG_DATA_LENGTH]) \/
     handler dc = Some (dc', [SendSW SW_INCORRECT_DATA])) \/
  (pin_is_validated = true /\
   exists display path dc', decoded dc display path dc').
Proof.
  unfold handler_get_extended_pubkey.
  destruct pin_is_validated; cbn [negb]; [|left; split; reflexivity].
  right.
  destruct (buffer_read_u8 (read_buffer dc)) as [[display b1]|] eqn:R1.
  2:{ left. split; [reflexivity|]. split; [no_decoding|]. eexists. left. reflexivity. }
  destruct (buffer_read_u8 b1) as [[n b2]|] eqn:R2.
  2:{ left. split; [reflexivity|]. split; [no_decoding|]. eexists. left. reflexivity. }
  destruct (Z.gtb_spec display 1) as [Hd|Hd].
  { left. split; [reflexivity|]. split; [no_decoding|]. eexists. right. reflexivity. }
  destruct (Z.gtb_spec n MAX_BIP32_PATH_STEPS) as [Hn|Hn].
  { left. split; [reflexivity|]. split; [no_decoding|]. eexists. right. reflexivity. }
  cbn [orb].
  destruct (buffer_read_bip32_path b2 (Z.to_nat n)) as [[path b3]|] eqn:R3.
  2:{ left. split; [reflexivity|]. split; [no_decoding|]. eexists. left. reflexivity. }
  right. split; [reflexivity|].
  exists display, path, {| read_buffer := b3 |}, n, b1, b2, b3.
  repeat split; assumption.
Qed.

Abbreviation ends :=
  (ends_as get_serialized_extended_pubkey_at_path bip32_path_format
     ui_display_pubkey).

Lemma reply_ends (display : Z) (path : list Z) (is_safe : bool) :
  display = 0 \/ display = 1 ->
  is_safe = true \/ display = 1 ->
  ends display path is_safe
    (derive_and_reply get_serialized_extended_pubkey_at_path bip32_path_format
       ui_display_pubkey display path (Z.of_nat (length path)) is_safe).
Proof.
  intros Hd Hg.
  pose proof (derive_and_reply_cases get_serialized_extended_pubkey_at_path
                bip32_path_format ui_display_pubkey display path is_safe) as Hc.
  cbv zeta in Hc. unfold ends_as. right.
  destruct Hc as [[Hn ->]|(key & Hk & [[Hz ->]|[(Hz & Hui & ->)|(Hz & Hui & ->)]])].
  - left. repeat split; assumption.
  - right. exists key. split; [exact Hk|]. left.
    split; [destruct Hg as [|]; [assumption | lia]|]. split; [exact Hz | reflexivity].
  - right. exists key. split; [exact Hk|]. right. left.
    split; [lia|]. split; [exact Hui | reflexivity].
  - right. exists key. split; [exact Hk|]. right. right.
    split; [lia|]. split; [exact Hui | reflexivity].
Qed.

Lemma handler_accepts (dc dc' : dispatcher_context_t) (display : Z)
    (path : list Z) :
  pin_is_validated = true -> decoded dc display path dc' ->
  exists (is_safe : bool) (tr : list event),
    result (check path (length path)) = Some is_safe /\
    handler dc = Some (dc', tr) /\
    ends display path is_safe tr.
Proof.
  intros Hpin Hdec.
  destruct (handler_decoded MAX_BIP32_PATH_STEPS MAX_BIP44_ACCOUNT_RECOMMENDED
              BIP44_COIN_TYPE BIP44_COIN_TYPE_2 pin_is_validated
              get_serialized_extended_pubkey_at_path bip32_path_format
              ui_display_pubkey dc dc' display path Hpin Hdec)
    as (is_safe & Hs & Hh).
  exists is_safe. eexists. split; [exact Hs|]. split; [exact Hh|].
  pose proof (decodes_display _ _ _ _ _ Hdec) as Hd.
  destruct (negb is_safe && (display =? 0)) eqn:G.
  - apply andb_true_iff in G. destruct G as [G1 G2].
    apply negb_true_iff in G1. apply Z.eqb_eq in G2.
    left. repeat split; assumption.
  - apply reply_ends; [exact Hd|].
    apply andb_false_iff in G. destruct G as [G|G].
    + left. now apply negb_false_iff in G.
    + right. apply Z.eqb_neq in G. lia.
Qed.

Ltac member H :=
  repeat (destruct H as [H|H];
          [try discriminate H; try (injection H as; subst)|]);
  try contradiction.

Ltac outcomes He :=
  unfold ends_as in He;
  destruct He as [(Us & D0 & ->)
                 |[(Gate & Hnone & ->)
                  |(key & Hk & [(Sf & D0 & ->)
                               |[(D1 & Hui & ->)|(D1 & Hui & ->)]])]].

(** X9: a locked device answers every request with the status "security
    status not satisfied" alone and leaves the request buffer as it was; an
    unlocked device never sends that status. *)
Theorem locked_iff_security_status (dc : dispatcher_context_t) :
  exists dc' tr,
    handler dc = Some (dc', tr) /\
    (pin_is_validated = false ->
     dc' = dc /\ tr = [SendSW SW_SECURITY_STATUS_NOT_SATISFIED]) /\
    (In (SendSW SW_SECURITY_STATUS_NOT_SATISFIED) tr ->
     pin_is_validated = false).
Proof.
  destruct (handler_rejects dc)
    as [[Hp Hh]|[(Hp & _ & dc' & [Hh|Hh])|(Hp & d & path & dc' & Hdec)]].
  - exists dc. eexists. split; [exact Hh|]. split; auto.
  - exists dc'. eexists. split; [exact Hh|].
    split; [congruence | intros [E|[]]; discriminate E].
  - exists dc'. eexists. split; [exact Hh|].
    split; [congruence | intros [E|[]]; discriminate E].
  - destruct (handler_accepts dc dc' d path Hp Hdec) as (safe & tr & _ & Hh & He).
    exists dc', tr. split; [exact Hh|]. split; [congruence|].
    intros Hin. exfalso. clear Hh Hp Hdec.
    outcomes He; destruct path; simpl in Hin; member Hin.
Qed.

(** X10: every status word tells its cause. "Wrong data length" and
    "incorrect data" are sent only on an unlocked device for a request that
    does not decode; "not supported" only for a well-formed request with
    display 0 and an unsafe path; "bad state" only after the derivation
    failed; "denied" only after the user refused the key on the confirmation
    screen; and the status OK is never sent without a response. *)
Theorem status_word_tells_cause (dc : dispatcher_context_t) :
  exists dc' tr,
    handler dc = Some (dc', tr) /\
    forall sw,
      In (SendSW sw) tr ->
      match sw with
      | SW_SECURITY_STATUS_NOT_SATISFIED => pin_is_validated = false
      | SW_WRONG_DATA_LENGTH | SW_INCORRECT_DATA =>
          pin_is_validated = true /\ forall d p dc'', ~ decoded dc d p dc''
      | SW_NOT_SUPPORTED =>
          exists path,
            decoded dc 0 path dc' /\
            result (check path (length path)) = Some false
      | SW_BAD_STATE =>
          exists display path,
            decoded dc display path dc' /\
            get_serialized_extended_pubkey_at_path path = None
      | SW_DENY =>
          exists path key is_safe,
            decoded dc 1 path dc' /\
            result (check path (length path)) = Some is_safe /\
            get_serialized_extended_pubkey_at_path path = Some key /\
            ui_display_pubkey (text_of path) (negb is_safe) key = false
      | SW_OK => False
      end.
Proof.
  destruct (handler_rejects dc)
    as [[Hp Hh]|[(Hp & Hno & dc' & [Hh|Hh])|(Hp & d & path & dc' & Hdec)]].
  - exists dc. eexists. split; [exact Hh|].
    intros sw [E|[]]. injection E as <-. exact Hp.
  - exists dc'. eexists. split; [exact Hh|].
    intros sw [E|[]]. injection E as <-. split; assumption.
  - exists dc'. eexists. split; [exact Hh|].
    intros sw [E|[]]. injection E as <-. split; assumption.
  - destruct (handler_accepts dc dc' d path Hp Hdec) as (safe & tr & Hs & Hh & He).
    exists dc', tr. split; [exact Hh|]. clear Hh Hp.
    intros sw Hin. outcomes He.
    + destruct Hin as [E|[]]. injection E as <-.
      exists path. rewrite <- D0, <- Us. split; assumption.
    + destruct Hin as [E|[E|[]]]; [discriminate E|]. injection E as <-.
      exists d, path. split; assumption.
    + exfalso. destruct path; simpl in Hin; member Hin.
    + assert (E : sw = SW_DENY) by (destruct path; simpl in Hin; member Hin; reflexivity).
      rewrite E. exists path, key, safe. rewrite <- D1. repeat split; assumption.
    + exfalso. destruct path; simpl in Hin; member Hin.
Qed.

(** X11: whatever the confirmation screen shows comes from the request: the
    display flag is 1, the text is that of the decoded path, the key is the
    one derived for that path, the "unsafe" flag is the negation of the
    policy's verdict on that path, and the recorded answer is the user's. *)
Theorem screen_shows_the_request (dc : dispatcher_context_t) :
  exists dc' tr,
    handler dc = Some (dc', tr) /\
    forall text u k a,
      In (Display text u k a) tr ->
      exists path,
        decoded dc 1 path dc' /\
        text = text_of path /\
        get_serialized_extended_pubkey_at_path path = Some k /\
        result (check path (length path)) = Some (negb u) /\
        a = ui_display_pubkey text u k.
Proof.
  destruct (handler_rejects dc)
    as [[Hp Hh]|[(Hp & _ & dc' & [Hh|Hh])|(Hp & d & path & dc' & Hdec)]].
  - exists dc. eexists. split; [exact Hh|]. intros ? ? ? ? [E|[]]. discriminate E.
  - exists dc'. eexists. split; [exact Hh|]. intros ? ? ? ? [E|[]]. discriminate E.
  - exists dc'. eexists. split; [exact Hh|]. intros ? ? ? ? [E|[]]. discriminate E.
  - destruct (handler_accepts dc dc' d path Hp Hdec) as (safe & tr & Hs & Hh & He).
    exists dc', tr. split; [exact Hh|]. clear Hh Hp.
    intros text u k a Hin.
    assert (Shown : d = 1 /\ text = text_of path /\
                    get_serialized_extended_pubkey_at_path path = Some k /\
                    u = negb safe /\ a = ui_display_pubkey text u k).
    { outcomes He; destruct path; simpl in Hin; member Hin;
        repeat split; auto. }
    destruct Shown as (-> & Et & Ek & -> & Ea).
    exists path. rewrite negb_involutive. repeat split; assumption.
Qed.

(** X12: the derivation service is called at most once per request, and only
    on an unlocked device, for the path decoded from a well-formed request
    that passed the gate (display 1, or a safe path); the recorded result is
    the service's. *)
Theorem derives_only_past_the_gate (dc : dispatcher_context_t) :
  exists dc' tr,
    handler dc = Some (dc', tr) /\
    (length (filter is_derive tr) <= 1)%nat /\
    forall path r,
      In (Derive path r) tr ->
      pin_is_validated = true /\
      r = get_serialized_extended_pubkey_at_path path /\
      exists display,
        decoded dc display path dc' /\
        (display = 1 \/ result (check path (length path)) = Some true).
Proof.
  destruct (handler_rejects dc)
    as [[Hp Hh]|[(Hp & _ & dc' & [Hh|Hh])|(Hp & d & path & dc' & Hdec)]].
  - exists dc. eexists. split; [exact Hh|].
    split; [simpl; lia | intros ? ? [E|[]]; discriminate E].
  - exists dc'. eexists. split; [exact Hh|].
    split; [simpl; lia | intros ? ? [E|[]]; discriminate E].
  - exists dc'. eexists. split; [exact Hh|].
    split; [simpl; lia | intros ? ? [E|[]]; discriminate E].
  - destruct (handler_accepts dc dc' d path Hp Hdec) as (safe & tr & Hs & Hh & He).
    exists dc', tr. split; [exact Hh|]. clear Hh.
    split; [outcomes He; destruct path; simpl; lia|].
    intros p r Hin. split; [exact Hp|]. clear Hp.
    assert (Called : p = path /\ r = get_serialized_extended_pubkey_at_path path /\
                     (d = 1 \/ safe = true)).
    { outcomes He; destruct path; simpl in Hin; member Hin;
        repeat split; auto; destruct Gate; auto. }
    destruct Called as (-> & Er & G). split; [exact Er|].
    exists d. split; [exact Hdec|].
    destruct G as [G|G]; [now left | right; now rewrite <- G].
Qed.

(** X13: on an unlocked device, a well-formed request with display 0 for a
    safe path whose derivation succeeds is answered with the derived key and
    the status OK, without any confirmation screen. *)
Theorem safe_path_exported_silently
    (dc dc' : dispatcher_context_t) (path : list Z) (pubkey : string) :
  pin_is_validated = true ->
  decoded dc 0 path dc' ->
  result (check path (length path)) = Some true ->
  get_serialized_extended_pubkey_at_path path = Some pubkey ->
  handler dc
  = Some (dc', Derive path (Some pubkey) :: formatting path
               ++ [SendResponse pubkey SW_OK]).
Proof.
  intros Hp Hdec Hsafe Hkey.
  destruct (handler_accepts dc dc' 0 path Hp Hdec) as (safe & tr & Hs & Hh & He).
  rewrite Hh. do 2 f_equal. clear Hh Hp Hdec.
  outcomes He; try congruence; try discriminate D1.
Qed.

(** X14: on an unlocked device, a well-formed request that passes the gate
    and whose derivation fails ends with the status "bad state": neither the
    formatter nor the confirmation screen is reached, and nothing else is
    sent. *)
Theorem derivation_failure_is_bad_state
    (dc dc' : dispatcher_context_t) (display : Z) (path : list Z) :
  pin_is_validated = true ->
  decoded dc display path dc' ->
  display = 1 \/ result (check path (length path)) = Some true ->
  get_serialized_extended_pubkey_at_path path = None ->
  handler dc = Some (dc', [Derive path None; SendSW SW_BAD_STATE]).
Proof.
  intros Hp Hdec Hgate Hnokey.
  destruct (handler_accepts dc dc' display path Hp Hdec)
    as (safe & tr & Hs & Hh & He).
  rewrite Hh. do 2 f_equal. clear Hh Hp Hdec.
  outcomes He; try congruence.
  destruct Hgate as [G|G]; [lia | congruence].
Qed.

(** X15: on an unlocked device, a well-formed request with display 1 whose
    derivation succeeds always reaches the confirmation screen, for a safe
    path too; the screen carries the negated verdict as its "unsafe" flag;
    the key is sent with OK if the user approves and the status "denied" is
    sent alone if not. *)
Theorem display_request_asks_the_user
    (dc dc' : dispatcher_context_t) (path : list Z) (pubkey : string)
    (is_safe : bool) :
  pin_is_validated = true ->
  decoded dc 1 path dc' ->
  result (check path (length path)) = Some is_safe ->
  get_serialized_extended_pubkey_at_path path = Some pubkey ->
  let approved := ui_display_pubkey (text_of path) (negb is_safe) pubkey in
  handler dc
  = Some (dc', Derive path (Some pubkey) :: formatting path
               ++ [Display (text_of path) (negb is_safe) pubkey approved;
                   if approved then SendResponse pubkey SW_OK
                   else SendSW SW_DENY]).
Proof.
  intros Hp Hdec Hsafe Hkey approved. subst approved.
  destruct (handler_accepts dc dc' 1 path Hp Hdec) as (safe & tr & Hs & Hh & He).
  rewrite Hh. do 2 f_equal. clear Hh Hp Hdec.
  assert (safe = is_safe) by congruence. subst safe.
  outcomes He; try congruence; try discriminate D0;
    assert (key = pubkey) by congruence; subst key; rewrite Hui; reflexivity.
Qed.

End WithPlatform.

End HandlerExtras.

(** ** The further properties at work on the sample device *)

Module ExtraExamples.
Import Mem Policy Buffer Handler Spec Sample Rules.
Import PolicyExtras HandlerExtras.

Ltac not_legacy_path :=
  intros [E|[E|[E|[]]]]; discriminate E.

Ltac all_u32 := repeat constructor; unfold u32; lia.

Ltac decodes_to len :=
  match goal with
  | |- decodes _ (request ?bytes) _ _ _ =>
      exists len, {| ptr := bytes; offset := 1 |},
        {| ptr := bytes; offset := 2 |},
        {| ptr := bytes; offset := 2 + 4 * Z.to_nat len |};
      repeat split; try reflexivity; unfold max_steps; lia
  end.

(** m/44'/88'/0' is safe, so it is a legacy exception or passes the rules. *)
Lemma safe_exactly_when_rules_pass_witness :
  In standard_path legacy_exceptions \/
  passes_rules max_account standard_path [coin; coin_2].
Proof.
  assert (U : Forall u32 standard_path) by all_u32.
  apply (proj1 (safe_exactly_when_rules_pass max_account standard_path
                  [coin; coin_2] U)).
  reflexivity.
Defined.

(** m/44'/88'/100' is safe and m/44'/88'/101' is not, the maximum being 100. *)
Lemma account_bound_inclusive_witness :
  is_safe 100 [hardened 44; hardened 88; hardened 100] [coin; coin_2] = Some true /\
  is_safe 100 [hardened 44; hardened 88; hardened 101] [coin; coin_2] = Some false.
Proof.
  assert (P : In 44 standard_purposes) by (simpl; auto).
  assert (C : In 88 [coin; coin_2]) by (simpl; auto).
  split.
  - apply (account_bound_inclusive 100 44 88 100 [coin; coin_2] P C); lia.
  - apply (account_bound_inclusive 100 44 88 101 [coin; coin_2] P C); lia.
Defined.

(** m/48'/88'/0'/2'/0 is safe as m/48'/88'/0'/2' is. *)
Lemma soft_step_keeps_safe_witness :
  is_safe max_account (bip48_path ++ [0]) [coin; coin_2] = Some true.
Proof.
  apply (soft_step_keeps_safe max_account bip48_path [coin; coin_2] 0).
  - all_u32.
  - not_legacy_path.
  - reflexivity.
  - lia.
Defined.

(** m/48'/88'/0'/2'/0'/0 is unsafe: its fifth component is hardened. *)
Lemma hardened_beyond_four_is_unsafe_witness :
  is_safe max_account (bip48_path ++ [0x80000000; 0]) [coin; coin_2]
  = Some false.
Proof.
  apply (hardened_beyond_four_is_unsafe max_account
           (bip48_path ++ [0x80000000; 0]) [coin; coin_2] 4 0x80000000).
  - lia.
  - reflexivity.
  - unfold u32. lia.
  - reflexivity.
Defined.

(** Three announced path cells in arrays of ten and of four cells, two
    announced coin types in arrays of three and of two cells. *)
Lemma result_ignores_further_cells_witness :
  result (is_path_safe_for_pubkey_export max_account
            (standard_path ++ [7; 7; 7; 7; 7; 7; 7]) 3 [coin; coin_2; 5] 2)
  = result (is_path_safe_for_pubkey_export max_account
              (standard_path ++ [0x80000000]) 3 [coin; coin_2] 2).
Proof.
  apply (result_ignores_further_cells max_account
           (standard_path ++ [7; 7; 7; 7; 7; 7; 7])
           (standard_path ++ [0x80000000]) 3 [coin; coin_2; 5] [coin; coin_2] 2).
  - simpl. lia.
  - simpl. lia.
  - simpl. lia.
  - simpl. lia.
  - reflexivity.
  - reflexivity.
Defined.

(** m/44'/88'/0', safe with the one coin type 88 and the maximum 100, stays
    safe with two coin types and the maximum 200. *)
Lemma wider_policy_keeps_safe_witness :
  is_safe 200 standard_path [coin; coin_2] = Some true.
Proof.
  apply (wider_policy_keeps_safe 100 200 standard_path [coin] [coin; coin_2]).
  - reflexivity.
  - intros x [<-|[]]. simpl. auto.
  - lia.
Defined.

(** The first three components of m/48'/88'/0'/2'/0/5 are hardened. *)
Lemma safe_prefix_is_hardened_witness :
  (2 <= length bip48_address_path)%nat /\
  Forall is_hardened (firstn 3 bip48_address_path).
Proof.
  apply (safe_prefix_is_hardened max_account bip48_address_path [coin; coin_2]).
  - all_u32.
  - reflexivity.
Defined.

(** Display 0 and m/44'/88'/0': the key is sent, nothing is shown. *)
Lemma safe_path_exported_silently_witness :
  device true false (request silent_standard)
  = Some ({| read_buffer := {| ptr := silent_standard; offset := 14 |} |},
          [Derive standard_path (Some xpub); Format standard_path;
           SendResponse xpub SW_OK]).
Proof.
  apply (safe_path_exported_silently max_steps max_account coin coin_2 true
           (fun _ => Some xpub) (fun _ => path_str) (fun _ _ _ => false)
           (request silent_standard) _ standard_path xpub).
  - reflexivity.
  - decodes_to 3.
  - reflexivity.
  - reflexivity.
Defined.

(** Display 1 and m/44'/88'/0' on a device whose derivation fails. *)
Lemma derivation_failure_is_bad_state_witness :
  broken_device (request shown_standard)
  = Some ({| read_buffer := {| ptr := shown_standard; offset := 14 |} |},
          [Derive standard_path None; SendSW SW_BAD_STATE]).
Proof.
  apply (derivation_failure_is_bad_state max_steps max_account coin coin_2 true
           (fun _ => None) (fun _ => path_str) (fun _ _ _ => true)
           (request shown_standard) _ 1 standard_path).
  - reflexivity.
  - decodes_to 3.
  - left. reflexivity.
  - reflexivity.
Defined.

(** Display 1 and m/44'/88'/50000000', refused by the user. *)
Lemma display_request_asks_the_user_witness :
  device true false (request shown_big_account)
  = Some ({| read_buffer := {| ptr := shown_big_account; offset := 14 |} |},
          [Derive big_account_path (Some xpub); Format big_account_path;
           Display path_str true xpub false; SendSW SW_DENY]).
Proof.
  apply (display_request_asks_the_user max_steps max_account coin coin_2 true
           (fun _ => Some xpub) (fun _ => path_str) (fun _ _ _ => false)
           (request shown_big_account) _ big_account_path xpub false).
  - reflexivity.
  - decodes_to 3.
  - reflexivity.
  - reflexivity.
Defined.

End ExtraExamples.
